(** * Size aggregation and summary extraction of [scripts/generate-metadata.py]

    A shallow embedding of [get_entry_size] and of the summary part of
    [generate_metadata], together with the properties the specification
    states about them.

    Modelling conventions.
    - A parsed document is a Python value built by [json.load]: [None],
      [bool], [int], [str], [list] and [dict] with [str] keys.  Python
      integers are unbounded, hence [Z].  Non-integer number literals
      (Python [float]) are not part of the value type.
    - A [dict] is a finite map from strings ([gmap string json]); a [set]
      of inode identifiers is a finite set of hash keys ([gset key]).
    - The set passed to [get_entry_size] is mutated in place by the
      source; here it is threaded explicitly: the function takes the set
      and returns the value together with the set after the call.
    - A [str] is a [string]; its characters are compared for equality
      only, except for [len] of a [str] found where the data array is
      expected, whose value does not change the outcome.
    - A Python exception is a [Raise] outcome of the [result] monad.
      Resource limits (recursion depth, memory) are not modelled.
    - Reading the input file, serialising the summary and printing are
      outside the embedding: [generate_metadata] maps the parsed document
      to the [metadata] dictionary that the source hands to [json.dump]. *)

From stdpp Require Import gmap strings list fin_maps.

#[local] Set Warnings "-clear-no-such-hyp".

Open Scope Z_scope.

(** ** Python values *)

Module Py.

#[warnings="-register-all"]
Inductive json : Type :=
  | JNull
  | JBool (b : bool)
  | JInt (z : Z)
  | JStr (s : string)
  | JList (l : list json)
  | JDict (d : gmap string json).

Inductive exn : Type :=
  | TypeError
  | KeyError
  | IndexError
  | AttributeError.

Inductive result (A : Type) : Type :=
  | Ok (a : A)
  | Raise (e : exn).

Arguments Ok {A} a.
Arguments Raise {A} e.

(** Sequencing: an exception raised by the first computation propagates.
    With these instances stdpp's [x ← r; k] notation is available. *)
#[global] Instance result_ret : MRet result := λ A a, Ok a.

#[global] Instance result_bind : MBind result := λ A B k r,
  match r with
  | Ok a => k a
  | Raise e => Raise e
  end.

(** Hash keys.  [hash(True) == hash(1)] and [True == 1] in Python, so a
    boolean and the integer it equals are one set element; lists and
    dicts are unhashable. *)
Inductive key : Type :=
  | KNone
  | KInt (z : Z)
  | KStr (s : string).

Definition key_to_sum (k : key) : unit + (Z + string) :=
  match k with KNone => inl () | KInt z => inr (inl z) | KStr s => inr (inr s) end.

Definition key_of_sum (x : unit + (Z + string)) : key :=
  match x with inl _ => KNone | inr (inl z) => KInt z | inr (inr s) => KStr s end.

#[global] Instance key_eq_dec : EqDecision key.
Proof. solve_decision. Defined.

#[global] Instance key_countable : Countable key.
Proof.
  apply (inj_countable' key_to_sum key_of_sum).
  by intros [].
Defined.

Definition py_hash (v : json) : result key :=
  match v with
  | JBool b => Ok (KInt (if b then 1 else 0))
  | JInt z => Ok (KInt z)
  | JStr s => Ok (KStr s)
  | JNull => Ok KNone
  | JList _ | JDict _ => Raise TypeError
  end.

(** [d.get(k)]: [None] when the key is absent. *)
Definition dict_get (d : gmap string json) (k : string) : json :=
  default JNull (d !! k).

(** [d.get(k, dflt)]. *)
Definition dict_get_default (d : gmap string json) (k : string) (dflt : json) : json :=
  default dflt (d !! k).

(** [total + v] for an [int] on the left: defined for [int] and [bool]
    operands, [TypeError] for every other value. *)
Definition int_add (total : Z) (v : json) : result Z :=
  match v with
  | JInt z => Ok (total + z)
  | JBool b => Ok (total + (if b then 1 else 0))
  | _ => Raise TypeError
  end.

(** [len(v)]: lists, strings and dicts have a length. *)
Definition py_len (v : json) : result nat :=
  match v with
  | JList l => Ok (length l)
  | JStr s => Ok (String.length s)
  | JDict d => Ok (size d)
  | JNull | JBool _ | JInt _ => Raise TypeError
  end.

(** [v[i]] for a non-negative integer index [i] below [len(v)].  A dict
    built by [json.load] has only [str] keys, so an integer subscript
    always misses. *)
Definition py_getitem (v : json) (i : nat) : result json :=
  match v with
  | JList l => match l !! i with Some x => Ok x | None => Raise IndexError end
  | JStr s => Ok (JStr (String.substring i 1 s))
  | JDict _ => Raise KeyError
  | JNull | JBool _ | JInt _ => Raise TypeError
  end.

End Py.

Import Py.

(** ** The size aggregator: [get_entry_size] *)

(** [get_entry_size entry seen_inodes] returns the value computed by the
    source together with [seen_inodes] as the call leaves it.  The inner
    [loop] is the [for i in range(1, len(entry))] loop with its
    accumulator [total_size]. *)
Fixpoint get_entry_size (entry : json) (seen_inodes : gset key)
    : result (json * gset key) :=
  match entry with
  | JDict d =>
      match dict_get d "ino" with
      | JNull => Ok (dict_get_default d "dsize" (JInt 0), seen_inodes)
      | ino =>
          k ← py_hash ino;
          if decide (k ∈ seen_inodes) then Ok (JInt 0, seen_inodes)
          else Ok (dict_get_default d "dsize" (JInt 0), {[k]} ∪ seen_inodes)
      end
  | JList (_ :: children) =>
      (fix loop (cs : list json) (total_size : Z) (seen : gset key)
           : result (json * gset key) :=
         match cs with
         | [] => Ok (JInt total_size, seen)
         | child :: cs' =>
             match get_entry_size child seen with
             | Ok (v, seen') =>
                 match int_add total_size v with
                 | Ok t => loop cs' t seen'
                 | Raise e => Raise e
                 end
             | Raise e => Raise e
             end
         end) children 0 seen_inodes
  | _ => Ok (JInt 0, seen_inodes)
  end.

(** The call [get_entry_size(entry)] with the default argument: a fresh
    set is created for this call. *)
Definition get_entry_size_fresh (entry : json) : result (json * gset key) :=
  get_entry_size entry ∅.

(** ** The summary extractor: [generate_metadata] *)

(** One element [[size, name, has_children]] of [top_entries]. *)
Record top_entry : Type := TopEntry {
  te_size : json;
  te_name : json;
  te_has_children : bool;
}.

(** The [metadata] dictionary.  The three computed keys are optional:
    [None] means the key is not in the dictionary. *)
Record summary : Type := Summary {
  architecture : json;
  timestamp : json;
  runner : json;
  total_disk_size : json;
  available_space : json;
  total_size : option json;
  top_entries : option (list top_entry);
  total_entries : option Z;
}.

(** The loop [for i in range(1, len(root_entry))] over the children of
    the root, with its two accumulators.  (The source also increments a
    local [count] that is never read; it is left out.) *)
Fixpoint top_level_loop (children : list json)
    (top_level_entries : list top_entry) (shared_inodes : gset key)
    : result (list top_entry * gset key) :=
  match children with
  | [] => Ok (top_level_entries, shared_inodes)
  | entry :: rest =>
      match entry with
      | JList (entry_meta :: sub) =>
          match entry_meta with
          | JDict m =>
              let name := dict_get_default m "name" (JStr "unknown") in
              '(size, shared') ← get_entry_size entry shared_inodes;
              let has_children := bool_decide (1 < length (entry_meta :: sub))%nat in
              top_level_loop rest
                (top_level_entries ++ [TopEntry size name has_children]) shared'
          | _ => top_level_loop rest top_level_entries shared_inodes
          end
      | JDict d =>
          let name := dict_get_default d "name" (JStr "unknown") in
          '(size, shared') ← get_entry_size entry shared_inodes;
          top_level_loop rest
            (top_level_entries ++ [TopEntry size name false]) shared'
      | _ => top_level_loop rest top_level_entries shared_inodes
      end
  end.

(** The pass-through part of [metadata]. *)
Definition base_metadata (doc : gmap string json) : summary :=
  {| architecture := dict_get doc "architecture";
     timestamp := dict_get doc "timestamp";
     runner := dict_get doc "runner";
     total_disk_size := dict_get doc "total_disk_size";
     available_space := dict_get doc "available_space";
     total_size := None;
     top_entries := None;
     total_entries := None |}.

Definition set_total_size (t : json) (m : summary) : summary :=
  {| architecture := architecture m; timestamp := timestamp m;
     runner := runner m; total_disk_size := total_disk_size m;
     available_space := available_space m;
     total_size := Some t;
     top_entries := top_entries m; total_entries := total_entries m |}.

Definition set_entries (es : list top_entry) (n : Z) (m : summary) : summary :=
  {| architecture := architecture m; timestamp := timestamp m;
     runner := runner m; total_disk_size := total_disk_size m;
     available_space := available_space m;
     total_size := total_size m;
     top_entries := Some es; total_entries := Some n |}.

(** The part of [generate_metadata] that uses a root entry: lines
    99 to 135 of the source. *)
Definition summarize_root (root_entry : json) (metadata : summary)
    : result summary :=
  match root_entry with
  | JList (root_meta :: children) =>
      metadata ←
        match root_meta with
        | JDict _ =>
            '(total, _) ← get_entry_size_fresh root_entry;
            mret (set_total_size total metadata)
        | _ => mret metadata
        end;
      '(top_level_entries, _) ← top_level_loop children [] ∅;
      mret (set_entries top_level_entries
              (Z.of_nat (length (root_meta :: children)) - 1) metadata)
  | _ => mret metadata
  end.

(** [generate_metadata] from the parsed document [data] to [metadata]. *)
Definition generate_metadata (data : json) : result summary :=
  match data with
  | JDict doc =>
      let metadata := base_metadata doc in
      let ncdu_data := dict_get_default doc "data" (JList []) in
      n ← py_len ncdu_data;
      if bool_decide (3 < n)%nat then
        root_entry ← py_getitem ncdu_data 3;
        summarize_root root_entry metadata
      else mret metadata
  | JNull | JBool _ | JInt _ | JStr _ | JList _ => Raise AttributeError
  end.

(** ** Vocabulary of the specification *)

(** The inode identifier a File node carries, as the element that the
    dedup set stores: no identifier when the field is absent or [None],
    and none either for a value that cannot be hashed. *)
Definition file_key (d : gmap string json) : option key :=
  match dict_get d "ino" with
  | JNull => None
  | ino => match py_hash ino with Ok k => Some k | Raise _ => None end
  end.

(** The [ino] field is absent, [None], or a hashable value. *)
Definition ino_hashable (d : gmap string json) : Prop :=
  match dict_get d "ino" with
  | JList _ | JDict _ => False
  | _ => True
  end.

#[global] Instance ino_hashable_dec (d : gmap string json) :
  Decision (ino_hashable d).
Proof. unfold ino_hashable. destruct (dict_get d "ino"); apply _. Defined.

(** The File node carries no inode identifier: the field is missing or
    is [None]. *)
Definition no_inode (d : gmap string json) : Prop :=
  d !! "ino" = None ∨ d !! "ino" = Some JNull.

(** The integer a value stands for in an addition ([True] is [1]). *)
Definition num_of (v : json) : option Z :=
  match v with
  | JInt z => Some z
  | JBool b => Some (if b then 1 else 0)
  | _ => None
  end.

(** The disk-usage field of a File node, [0] when absent. *)
Definition dsize_field (d : gmap string json) : json :=
  default (JInt 0) (d !! "dsize").

Definition dsize_num (d : gmap string json) : Z :=
  default 0 (num_of (dsize_field d)).

(** The disk-usage field is absent or a number. *)
Definition dsize_numeric (d : gmap string json) : Prop :=
  is_Some (num_of (dsize_field d)).

(** The disk-usage field is absent or a number that is not negative. *)
Definition dsize_nonneg (d : gmap string json) : Prop :=
  ∃ z, num_of (dsize_field d) = Some z ∧ 0 ≤ z.

(** The File nodes of a tree in traversal order: a mapping is a File
    node, and the File nodes of a Directory are those of its elements
    after the first. *)
Fixpoint files (t : json) : list (gmap string json) :=
  match t with
  | JDict d => [d]
  | JList (_ :: children) =>
      (fix go (cs : list json) : list (gmap string json) :=
         match cs with
         | [] => []
         | c :: cs' => files c ++ go cs'
         end) children
  | _ => []
  end.

(** The inode identifiers carried by the File nodes of a tree. *)
Definition inodes (t : json) : list key := omap file_key (files t).

(** Plain sum of the disk-usage fields of a list of File nodes. *)
Definition dsize_sum (fs : list (gmap string json)) : Z :=
  foldr (λ d acc, dsize_num d + acc) 0 fs.

(** The children loop of a Directory, written on top of [get_entry_size]:
    each child is aggregated against the set left by its predecessors
    and its value is added to the running total. *)
Fixpoint sum_children (cs : list json) (total : Z) (seen : gset key)
    : result (json * gset key) :=
  match cs with
  | [] => Ok (JInt total, seen)
  | c :: cs' =>
      '(v, seen') ← get_entry_size c seen;
      t ← int_add total v;
      sum_children cs' t seen'
  end.

(** A left-to-right pass over a list of File nodes with a dedup set:
    the count and the set after the pass.  A node whose identifier is in
    the set is passed over; any other node adds its disk-usage number,
    and its identifier, if it has one, enters the set. *)
Definition add_count (z : Z) (r : result (Z * gset key)) : result (Z * gset key) :=
  '(z', seen) ← r; mret (z + z', seen).

Fixpoint count_files (fs : list (gmap string json)) (seen : gset key)
    : result (Z * gset key) :=
  match fs with
  | [] => Ok (0, seen)
  | d :: fs' =>
      if decide (ino_hashable d) then
        match file_key d with
        | Some k =>
            if decide (k ∈ seen) then count_files fs' seen
            else add_count (dsize_num d) (count_files fs' ({[k]} ∪ seen))
        | None => add_count (dsize_num d) (count_files fs' seen)
        end
      else Raise TypeError
  end.

(** An outcome of the aggregator and an outcome of the pass agree. *)
Definition agrees (offset : Z) (r : result (json * gset key))
    (c : result (Z * gset key)) : Prop :=
  match r, c with
  | Ok (v, seen), Ok (z, seen') => num_of v = Some (offset + z) ∧ seen = seen'
  | Raise e, Raise e' => e = e'
  | _, _ => False
  end.

(** Shapes.  [unrecognized] is the third arm of the aggregator;
    [listed] is what the extractor's loop turns into an entry. *)
Definition unrecognized (v : json) : Prop :=
  match v with
  | JDict _ | JList (_ :: _) => False
  | _ => True
  end.

Definition listed (v : json) : bool :=
  match v with
  | JDict _ | JList (JDict _ :: _) => true
  | _ => false
  end.

(** A non-empty sequence whose first element is not a mapping: the
    aggregator sums it, the extractor's loop passes over it. *)
Definition headless (v : json) : bool :=
  match v with
  | JList (JDict _ :: _) => false
  | JList (_ :: _) => true
  | _ => false
  end.

(** Name and has-children flag of a top-level child, in the words of
    the specification. *)
Definition name_of (d : gmap string json) : json :=
  default (JStr "unknown") (d !! "name").

Definition entry_shape (c : json) : option (json * bool) :=
  match c with
  | JList l =>
      match l with
      | JDict m :: _ => Some (name_of m, bool_decide (1 < length l)%nat)
      | _ => None
      end
  | JDict d => Some (name_of d, false)
  | _ => None
  end.

Definition shape_of (e : top_entry) : json * bool :=
  (te_name e, te_has_children e).

(** Aggregating each element of a list in turn against one shared set:
    the values in order and the set after the last element. *)
Fixpoint aggregate_each (cs : list json) (seen : gset key)
    : result (list json * gset key) :=
  match cs with
  | [] => Ok ([], seen)
  | c :: cs' =>
      '(v, seen1) ← get_entry_size c seen;
      '(vs, seen2) ← aggregate_each cs' seen1;
      mret (v :: vs, seen2)
  end.

(** Sum of the sizes of a list of entries, when they are all numbers. *)
Fixpoint entries_sum (es : list top_entry) : option Z :=
  match es with
  | [] => Some 0
  | e :: es' =>
      z ← num_of (te_size e); r ← entries_sum es'; Some (z + r)
  end.

(** The root entry the extractor locates: element 3 of the [data] array. *)
Definition located (doc : gmap string json) (root_entry : json) : Prop :=
  ∃ arr, doc !! "data" = Some (JList arr) ∧ arr !! 3%nat = Some root_entry.

(** [threaded cs S zs S']: aggregating the elements of [cs] one after
    the other, each against the set left by the one before, yields the
    numbers [zs] and leaves the set [S']. *)
Inductive threaded : list json → gset key → list Z → gset key → Prop :=
  | threaded_nil (S : gset key) : threaded [] S [] S
  | threaded_cons (c : json) (cs : list json) (S S1 S2 : gset key)
      (v : json) (z : Z) (zs : list Z) :
      get_entry_size c S = Ok (v, S1) →
      num_of v = Some z →
      threaded cs S1 zs S2 →
      threaded (c :: cs) S (z :: zs) S2.

Definition Zsum (zs : list Z) : Z := foldr Z.add 0 zs.

(** ** Fixtures *)

Module Fixture.

Definition file (name : string) (dsize ino : Z) : json :=
  JDict (list_to_map
    [("name", JStr name); ("asize", JInt 1000);
     ("dsize", JInt dsize); ("ino", JInt ino)]).

Definition file_no_ino (name : string) (dsize : Z) : gmap string json :=
  list_to_map [("name", JStr name); ("asize", JInt 1000); ("dsize", JInt dsize)].

Definition dir_meta (name : string) : json :=
  JDict (list_to_map
    [("name", JStr name); ("asize", JInt 4096); ("dsize", JInt 4096)]).

Definition document (root_entry : json) : gmap string json :=
  list_to_map
    [("architecture", JStr "x64"); ("timestamp", JStr "2024-01-01");
     ("data", JList [JInt 1; JInt 2; JDict ∅; root_entry])].

(** Two top-level directories, each with one file; both files share
    inode 7. *)
Definition shared_root : json :=
  JList [dir_meta "root";
         JList [dir_meta "a"; file "f" 4096 7];
         JList [dir_meta "b"; file "g" 4096 7]].

(** A root with one file and two children of unrecognized shape. *)
Definition ragged_root : json :=
  JList [dir_meta "root"; file "f" 4096 1; JStr "junk"; JList []].


(** Distinct inodes at two depths. *)
Definition nested_root : json :=
  JList [dir_meta "root";
         JList [dir_meta "subdir"; file "file1.txt" 4096 1];
         file "file2.txt" 4096 2].

End Fixture.

(** ** The entry digest: [extract_entry_info] *)

(** The marker appended for an entry with children:
    [{"has_children": True, "child_count": n}]. *)
Definition children_marker (n : Z) : json :=
  JDict (<["has_children" := JBool true]> {["child_count" := JInt n]}).

(** [extract_entry_info(entry, max_depth, current_depth)].  [None] is
    [JNull]; the two subscripts [entry[0]] and [entry[1]] are list
    lookups that raise [IndexError] out of range. *)
Definition extract_entry_info (entry : json) (max_depth current_depth : Z)
    : result json :=
  match entry with
  | JList l =>
      if bool_decide (length l < 2)%nat then Ok JNull
      else
        size ← py_getitem entry 0;
        name ← py_getitem entry 1;
        let result := [size; name] in
        if bool_decide (current_depth < max_depth)
           && bool_decide (2 < length l)%nat
        then Ok (JList (result ++ [children_marker (Z.of_nat (length l) - 2)]))
        else Ok (JList result)
  | _ => Ok JNull
  end.

(** The call with the default arguments [max_depth=1, current_depth=0]. *)
Definition extract_entry_info_default (entry : json) : result json :=
  extract_entry_info entry 1 0.

(** ** File selection and naming in [main] *)

(** [s.endswith(suffix)]. *)
Definition endswith (s suffix : string) : bool :=
  bool_decide (String.length suffix ≤ String.length s)%nat
  && String.eqb
       (String.substring (String.length s - String.length suffix)
                         (String.length suffix) s)
       suffix.

(** The list comprehension that selects the reports to process among the
    names returned by the glob. *)
Definition metadata_files (json_files : list string) : list string :=
  filter (λ f, endswith f "-metadata.json" = false) json_files.

(** The character ['.']. *)
Definition dot : Ascii.ascii := Ascii.ascii_of_nat 46.

(** Index of the last ['.'] of a name. *)
Fixpoint rfind_dot (s : string) : option nat :=
  match s with
  | EmptyString => None
  | String c s' =>
      match rfind_dot s' with
      | Some i => Some (S i)
      | None => if Ascii.eqb c dot then Some 0%nat else None
      end
  end.

(** [Path.stem]: the name without its last suffix; a leading or a
    trailing dot starts no suffix. *)
Definition path_stem (name : string) : string :=
  match rfind_dot name with
  | Some i =>
      if bool_decide (0 < i < String.length name - 1)%nat
      then String.substring 0 i name
      else name
  | None => name
  end.

Section Naming.
Variable stem : string → string.

(** The name [f"{json_file.stem}-metadata.json"] of the file written for
    [json_file], in the directory of [json_file]. *)
Definition output_file (json_file : string) : string :=
  stem json_file +:+ "-metadata.json".

End Naming.

(** ** Further vocabulary *)

(** The File nodes that a pass starting from [seen] counts: those
    without identifier, and for each identifier outside [seen] the first
    node that carries it. *)
Fixpoint counted (fs : list (gmap string json)) (seen : gset key)
    : list (gmap string json) :=
  match fs with
  | [] => []
  | d :: fs' =>
      match file_key d with
      | Some k =>
          if decide (k ∈ seen) then counted fs' seen
          else d :: counted fs' ({[k]} ∪ seen)
      | None => d :: counted fs' seen
      end
  end.

(** File nodes that carry one inode identifier report one disk usage,
    as the hard links of one file do. *)
Definition links_consistent (fs : list (gmap string json)) : Prop :=
  ∀ d1 d2 k, d1 ∈ fs → d2 ∈ fs →
             file_key d1 = Some k → file_key d2 = Some k →
             dsize_num d1 = dsize_num d2.

(** The five scalar fields of two summaries coincide. *)
Definition same_scalars (s md : summary) : Prop :=
  architecture s = architecture md ∧ timestamp s = timestamp md
  ∧ runner s = runner md ∧ total_disk_size s = total_disk_size md
  ∧ available_space s = available_space md.

(** ** Basic facts *)

(** Induction over trees: a list node gets the hypothesis for each of
    its elements; dictionaries are leaves of the traversal. *)
Section json_tree_ind.
Variable P : json → Prop.
Hypothesis Hnull : P JNull.
Hypothesis Hbool : ∀ b, P (JBool b).
Hypothesis Hint : ∀ z, P (JInt z).
Hypothesis Hstr : ∀ s, P (JStr s).
Hypothesis Hlist : ∀ l, Forall P l → P (JList l).
Hypothesis Hdict : ∀ d, P (JDict d).

Fixpoint json_tree_ind (v : json) : P v :=
  match v with
  | JNull => Hnull
  | JBool b => Hbool b
  | JInt z => Hint z
  | JStr s => Hstr s
  | JList l =>
      Hlist l
        ((fix all (l : list json) : Forall P l :=
            match l with
            | [] => List.Forall_nil P
            | x :: l' =>
                @List.Forall_cons _ P x l' (json_tree_ind x) (all l')
            end) l)
  | JDict d => Hdict d
  end.
End json_tree_ind.

Ltac unfold_bind := unfold mbind, mret, result_bind, result_ret in *.

Lemma get_entry_size_list (m : json) (cs : list json) (S : gset key) :
  get_entry_size (JList (m :: cs)) S = sum_children cs 0 S.
Proof.
  simpl. generalize 0 as total. revert S.
  induction cs as [|c cs IH]; intros S total; [done|].
  simpl. unfold_bind.
  destruct (get_entry_size c S) as [[v S']|e]; [|done].
  destruct (int_add total v) as [t|e]; [|done].
  apply IH.
Qed.

Lemma files_list (m : json) (cs : list json) :
  files (JList (m :: cs)) = cs ≫= files.
Proof.
  simpl. induction cs as [|c cs IH]; [done|].
  by rewrite bind_cons, IH.
Qed.

Lemma get_entry_size_unrecognized (v : json) (S : gset key) :
  unrecognized v → get_entry_size v S = Ok (JInt 0, S).
Proof. destruct v as [| | | |[|x l]|]; simpl; tauto. Qed.

Lemma files_unrecognized (v : json) : unrecognized v → files v = [].
Proof. destruct v as [| | | |[|x l]|]; simpl; tauto. Qed.

(** The three outcomes of a File node. *)
Lemma get_entry_size_no_ino (d : gmap string json) (S : gset key) :
  dict_get d "ino" = JNull →
  get_entry_size (JDict d) S = Ok (dsize_field d, S).
Proof. intros H. simpl. by rewrite H. Qed.

Lemma get_entry_size_hashed (d : gmap string json) (S : gset key) (k : key) :
  dict_get d "ino" ≠ JNull → py_hash (dict_get d "ino") = Ok k →
  get_entry_size (JDict d) S =
    if decide (k ∈ S) then Ok (JInt 0, S) else Ok (dsize_field d, {[k]} ∪ S).
Proof.
  intros Hn Hk. simpl.
  destruct (dict_get d "ino"); try done; simpl in Hk;
    injection Hk as <-; done.
Qed.

Lemma get_entry_size_unhashable (d : gmap string json) (S : gset key) :
  ¬ ino_hashable d → get_entry_size (JDict d) S = Raise TypeError.
Proof.
  unfold ino_hashable. simpl.
  destruct (dict_get d "ino"); simpl; tauto.
Qed.

Lemma file_key_None_typed (d : gmap string json) :
  ino_hashable d → file_key d = None → dict_get d "ino" = JNull.
Proof.
  unfold ino_hashable, file_key.
  destruct (dict_get d "ino"); simpl; try done.
Qed.

Lemma file_key_Some (d : gmap string json) (k : key) :
  file_key d = Some k →
  dict_get d "ino" ≠ JNull ∧ py_hash (dict_get d "ino") = Ok k.
Proof.
  unfold file_key.
  destruct (dict_get d "ino"); simpl; try done; intros [= <-]; done.
Qed.

(** A File node against a dedup set, through [file_key]. *)
Lemma get_entry_size_file (d : gmap string json) (S : gset key) :
  ino_hashable d →
  get_entry_size (JDict d) S =
    match file_key d with
    | Some k =>
        if decide (k ∈ S) then Ok (JInt 0, S) else Ok (dsize_field d, {[k]} ∪ S)
    | None => Ok (dsize_field d, S)
    end.
Proof.
  intros Hh. destruct (file_key d) as [k|] eqn:E.
  - apply file_key_Some in E as [Hn Hk]. by apply get_entry_size_hashed.
  - apply get_entry_size_no_ino. by apply file_key_None_typed.
Qed.

Lemma int_add_num (total : Z) (v : json) (t : Z) :
  int_add total v = Ok t ↔ ∃ z, num_of v = Some z ∧ t = total + z.
Proof.
  destruct v as [|b|n|s|l|d]; simpl; split;
    try done; try (intros (x & [=] & _); done).
  - intros [= <-]. eauto.
  - intros (x & [= <-] & ->). done.
  - intros [= <-]. eauto.
  - intros (x & [= <-] & ->). done.
Qed.

Lemma sum_children_threaded (cs : list json) (total : Z) (S S' : gset key)
    (v : json) :
  sum_children cs total S = Ok (v, S') ↔
  ∃ zs, threaded cs S zs S' ∧ v = JInt (total + Zsum zs).
Proof.
  revert total S. induction cs as [|c cs IH]; intros total S; simpl.
  - split.
    + intros [= <- <-]. exists []. split; [constructor|].
      unfold Zsum. simpl. f_equal. lia.
    + intros (zs & Ht & ->). inversion Ht; subst.
      unfold Zsum. simpl. do 3 f_equal. lia.
  - unfold_bind. split.
    + destruct (get_entry_size c S) as [[v1 S1]|e] eqn:E1; [|done].
      destruct (int_add total v1) as [t|e] eqn:E2; [|done].
      apply int_add_num in E2 as (z & Hz & ->).
      intros (zs & Ht & ->)%IH. exists (z :: zs). split.
      * by econstructor.
      * unfold Zsum. simpl. f_equal. lia.
    + intros (zs & Ht & ->).
      inversion Ht as [|c' cs' S0 S1 S2 v1 z zs' Hc Hz Ht']; subst.
      rewrite Hc.
      assert (E : int_add total v1 = Ok (total + z))
        by (apply int_add_num; eauto).
      rewrite E. apply IH. eexists. split; [done|].
      unfold Zsum. simpl. f_equal. lia.
Qed.

(** ** The claims *)

(** C1. File node: if the node carries an inode identifier that is
    already in the dedup set, the aggregate is 0 and the set is left as
    it is; if it carries one that is not in the set, the identifier is
    inserted and the aggregate is the disk-usage field, 0 when the field
    is absent; a node without an identifier also yields its disk-usage
    field.  Setting or removing the apparent-size field never changes
    the outcome. *)
Theorem file_node_aggregate (d : gmap string json) (S : gset key) :
  (∀ ino k, d !! "ino" = Some ino → ino ≠ JNull → py_hash ino = Ok k →
     k ∈ S → get_entry_size (JDict d) S = Ok (JInt 0, S))
  ∧ (∀ ino k, d !! "ino" = Some ino → ino ≠ JNull → py_hash ino = Ok k →
     k ∉ S →
     get_entry_size (JDict d) S =
       Ok (default (JInt 0) (d !! "dsize"), {[k]} ∪ S))
  ∧ (d !! "ino" = None ∨ d !! "ino" = Some JNull →
     get_entry_size (JDict d) S = Ok (default (JInt 0) (d !! "dsize"), S))
  ∧ (∀ a, get_entry_size (JDict (<["asize" := a]> d)) S
          = get_entry_size (JDict d) S)
  ∧ get_entry_size (JDict (delete "asize" d)) S = get_entry_size (JDict d) S.
Proof.
  split_and!.
  - intros ino k Hi Hn Hk Hin.
    rewrite (get_entry_size_hashed d S k); unfold dict_get; rewrite ?Hi; try done.
    by rewrite decide_True.
  - intros ino k Hi Hn Hk Hin.
    rewrite (get_entry_size_hashed d S k); unfold dict_get; rewrite ?Hi; try done.
    by rewrite decide_False.
  - intros Hi. apply get_entry_size_no_ino. unfold dict_get.
    by destruct Hi as [-> | ->].
  - intros a. simpl. unfold dict_get, dict_get_default.
    by rewrite !lookup_insert_ne.
  - simpl. unfold dict_get, dict_get_default.
    by rewrite !lookup_delete_ne.
Qed.

Lemma file_node_aggregate_witness :
  get_entry_size (Fixture.file "file.txt" 4096 123) {[KInt 123]}
    = Ok (JInt 0, {[KInt 123]})
  ∧ get_entry_size (Fixture.file "file.txt" 4096 123) ∅
    = Ok (JInt 4096, {[KInt 123]} ∪ ∅)
  ∧ get_entry_size (JDict (Fixture.file_no_ino "file.txt" 4096)) {[KInt 123]}
    = Ok (JInt 4096, {[KInt 123]}).
Proof.
  split_and!.
  - refine (proj1 (file_node_aggregate _ _) (JInt 123) (KInt 123) _ _ _ _).
    + reflexivity.
    + discriminate.
    + reflexivity.
    + apply elem_of_singleton. reflexivity.
  - refine (proj1 (proj2 (file_node_aggregate _ _)) (JInt 123) (KInt 123) _ _ _ _).
    + reflexivity.
    + discriminate.
    + reflexivity.
    + apply not_elem_of_empty.
  - refine (proj1 (proj2 (proj2 (file_node_aggregate _ _))) _).
    left. reflexivity.
Defined.

(** C2. Directory node: for a sequence with at least one element the
    aggregate is the sum of the aggregates of the elements after the
    first, the dedup set threaded from each element to the next; the
    first element is never read, and a directory holding only its
    metadata element aggregates to 0 whatever that element is. *)
Theorem directory_node_aggregate (m : json) (cs : list json) (S : gset key) :
  (∀ v S', get_entry_size (JList (m :: cs)) S = Ok (v, S') ↔
           ∃ zs, threaded cs S zs S' ∧ v = JInt (Zsum zs))
  ∧ (∀ m', get_entry_size (JList (m' :: cs)) S
           = get_entry_size (JList (m :: cs)) S)
  ∧ get_entry_size (JList [m]) S = Ok (JInt 0, S).
Proof.
  split_and!.
  - intros v S'. rewrite get_entry_size_list, sum_children_threaded.
    by setoid_rewrite Z.add_0_l.
  - intros m'. by rewrite !get_entry_size_list.
  - done.
Qed.

Lemma directory_node_aggregate_witness :
  get_entry_size
    (JList [Fixture.dir_meta "testdir";
            Fixture.file "file1.txt" 4096 1;
            Fixture.file "file2.txt" 4096 2]) ∅
  = Ok (JInt (Zsum [4096; 4096]), {[KInt 2]} ∪ ({[KInt 1]} ∪ ∅)).
Proof.
  apply (proj1 (directory_node_aggregate _ _ _)).
  exists [4096; 4096]. split; [|reflexivity].
  eapply threaded_cons; [reflexivity | reflexivity |].
  eapply threaded_cons; [reflexivity | reflexivity |].
  apply threaded_nil.
Defined.

(** ** Flattening: a tree is aggregated as the list of its File nodes *)

Lemma add_count_0 (r : result (Z * gset key)) : add_count 0 r = r.
Proof. by destruct r as [[z s]|e]. Qed.

Lemma add_count_add (a b : Z) (r : result (Z * gset key)) :
  add_count a (add_count b r) = add_count (a + b) r.
Proof.
  destruct r as [[z s]|e]; [|done].
  unfold add_count. unfold_bind. do 2 f_equal. lia.
Qed.

Lemma count_files_app (fs1 fs2 : list (gmap string json)) (S : gset key) :
  count_files (fs1 ++ fs2) S =
    '(z1, S1) ← count_files fs1 S; add_count z1 (count_files fs2 S1).
Proof.
  revert S. induction fs1 as [|d fs1 IH]; intros S; simpl.
  - unfold_bind. by rewrite add_count_0.
  - destruct (decide (ino_hashable d)); [|done].
    assert (Hadd : ∀ S0,
      add_count (dsize_num d) (count_files (fs1 ++ fs2) S0) =
      '(z1, S1) ← add_count (dsize_num d) (count_files fs1 S0);
      add_count z1 (count_files fs2 S1)).
    { intros S0. rewrite IH. unfold_bind.
      destruct (count_files fs1 S0) as [[z1 S1]|e]; [|done].
      simpl. by rewrite add_count_add. }
    destruct (file_key d) as [k|]; [|apply Hadd].
    destruct (decide (k ∈ S)); [apply IH | apply Hadd].
Qed.

Lemma agrees_add_count (total z : Z) (r : result (json * gset key))
    (c : result (Z * gset key)) :
  agrees (total + z) r c → agrees total r (add_count z c).
Proof.
  destruct r as [[v s]|e], c as [[z' s']|e']; simpl; try done.
  intros [-> ->]. split; [f_equal; lia | done].
Qed.

Lemma sum_children_agrees (cs : list json) :
  Forall (λ t, ∀ S, Forall dsize_numeric (files t) →
               agrees 0 (get_entry_size t S) (count_files (files t) S)) cs →
  ∀ total S, Forall dsize_numeric (cs ≫= files) →
    agrees total (sum_children cs total S) (count_files (cs ≫= files) S).
Proof.
  induction 1 as [|c cs Hc _ IH]; intros total S Hnum.
  - simpl. split; [f_equal; lia | done].
  - rewrite bind_cons in Hnum |- *. apply Forall_app in Hnum as [Hn1 Hn2].
    rewrite count_files_app. simpl. unfold_bind.
    specialize (Hc S Hn1).
    destruct (get_entry_size c S) as [[v S1]|e],
             (count_files (files c) S) as [[z S1']|e']; simpl in Hc; try done.
    destruct Hc as [Hv <-]. rewrite Z.add_0_l in Hv.
    assert (E : int_add total v = Ok (total + z))
      by (apply int_add_num; eauto).
    rewrite E. apply agrees_add_count, IH, Hn2.
Qed.

Lemma get_entry_size_agrees (t : json) (S : gset key) :
  Forall dsize_numeric (files t) →
  agrees 0 (get_entry_size t S) (count_files (files t) S).
Proof.
  revert S. induction t as [|b|z|s|l IH|d] using json_tree_ind;
    intros S Hnum; try done.
  - destruct l as [|m cs]; [done|].
    rewrite get_entry_size_list. rewrite files_list in Hnum |- *.
    apply sum_children_agrees; [|done].
    by apply Forall_cons in IH as [_ IH].
  - apply Forall_singleton in Hnum as [z Hz].
    cbn [files count_files].
    destruct (decide (ino_hashable d)) as [Hh|Hh].
    + rewrite get_entry_size_file by done.
      assert (Hd : num_of (dsize_field d) = Some (0 + (dsize_num d + 0))).
      { unfold dsize_num. rewrite Hz. simpl. f_equal. lia. }
      destruct (file_key d) as [k|]; [destruct (decide (k ∈ S))|]; done.
    + by rewrite get_entry_size_unhashable.
Qed.

(** ** Facts about the pass over File nodes *)

Lemma dsize_nonneg_numeric (d : gmap string json) :
  dsize_nonneg d → dsize_numeric d.
Proof. intros (z & Hz & _). by exists z. Qed.

Lemma dsize_nonneg_num (d : gmap string json) : dsize_nonneg d → 0 ≤ dsize_num d.
Proof. intros (z & Hz & Hle). unfold dsize_num. by rewrite Hz. Qed.

Lemma no_inode_get (d : gmap string json) :
  no_inode d ↔ dict_get d "ino" = JNull.
Proof.
  unfold no_inode, dict_get. destruct (d !! "ino") as [v|]; simpl.
  - split; [by intros [|[= ->]] | intros ->; by right].
  - split; [done | by left].
Qed.

Lemma count_files_distinct (fs : list (gmap string json)) (S : gset key) :
  Forall ino_hashable fs →
  NoDup (omap file_key fs) →
  (∀ k, k ∈ omap file_key fs → k ∉ S) →
  count_files fs S = Ok (dsize_sum fs, list_to_set (omap file_key fs) ∪ S).
Proof.
  revert S. induction fs as [|d fs IH]; intros S Hh Hnd Hfresh; simpl.
  - f_equal. f_equal. set_solver.
  - apply Forall_cons in Hh as [Hd Hh]. rewrite decide_True by done.
    simpl in Hnd, Hfresh.
    destruct (file_key d) as [k|].
    + apply NoDup_cons in Hnd as [Hk Hnd].
      rewrite decide_False by (apply Hfresh; left).
      rewrite IH; [| done | done |].
      * simpl. do 2 f_equal. set_solver.
      * intros k' Hk'. specialize (Hfresh k' (list_elem_of_further _ _ _ Hk')).
        set_solver.
    + rewrite IH by done. done.
Qed.

Lemma count_files_hashable (fs : list (gmap string json)) (S : gset key) (e : exn) :
  count_files fs S = Raise e → ¬ Forall ino_hashable fs.
Proof.
  revert S. induction fs as [|d fs IH]; intros S; simpl; [done|].
  intros Hr Hall. apply Forall_cons in Hall as [Hd Hall].
  rewrite decide_True in Hr by done.
  assert (Hadd : ∀ S0, add_count (dsize_num d) (count_files fs S0) ≠ Raise e).
  { intros S0 Hc. destruct (count_files fs S0) as [[z s]|e'] eqn:E; [done|].
    injection Hc as ->. by apply (IH S0). }
  destruct (file_key d) as [k|]; [|by apply (Hadd S)].
  destruct (decide (k ∈ S)); [by apply (IH S) | by eapply Hadd].
Qed.

Lemma count_files_antitone (fs : list (gmap string json)) (S T : gset key) :
  Forall dsize_nonneg fs → S ⊆ T →
  match count_files fs S, count_files fs T with
  | Ok (zS, _), Ok (zT, _) => zT ≤ zS
  | Raise e, Raise e' => e = e'
  | _, _ => False
  end.
Proof.
  intros Hnn. revert S T. induction Hnn as [|d fs Hd _ IH]; intros S T Hsub.
  - simpl. lia.
  - simpl. destruct (decide (ino_hashable d)); [|done].
    apply dsize_nonneg_num in Hd.
    assert (Hsame : ∀ S0 T0, S0 ⊆ T0 →
      match add_count (dsize_num d) (count_files fs S0),
            add_count (dsize_num d) (count_files fs T0) with
      | Ok (zS, _), Ok (zT, _) => zT ≤ zS
      | Raise e, Raise e' => e = e'
      | _, _ => False
      end).
    { intros S0 T0 H0. specialize (IH S0 T0 H0).
      destruct (count_files fs S0) as [[zS sS]|eS],
               (count_files fs T0) as [[zT sT]|eT]; simpl in *; try done. lia. }
    destruct (file_key d) as [k|]; [|by apply Hsame].
    destruct (decide (k ∈ S)) as [HS|HS], (decide (k ∈ T)) as [HT|HT].
    + by apply IH.
    + set_solver.
    + assert (H0 : {[k]} ∪ S ⊆ T) by set_solver.
      specialize (IH _ _ H0).
      destruct (count_files fs ({[k]} ∪ S)) as [[zS sS]|eS],
               (count_files fs T) as [[zT sT]|eT]; simpl in *; try done. lia.
    + apply Hsame. set_solver.
Qed.

Lemma sum_children_no_inode (d : gmap string json) (n : nat) (total : Z)
    (S : gset key) :
  no_inode d → dsize_numeric d →
  sum_children (replicate n (JDict d)) total S
    = Ok (JInt (total + Z.of_nat n * dsize_num d), S).
Proof.
  intros Hno%no_inode_get [z Hz]. revert total.
  induction n as [|n IH]; intros total.
  - simpl. do 3 f_equal. lia.
  - cbn [replicate sum_children]. rewrite get_entry_size_no_ino by done.
    unfold_bind.
    assert (E : int_add total (dsize_field d) = Ok (total + z))
      by (apply int_add_num; eauto).
    rewrite E, IH. unfold dsize_num. rewrite Hz. simpl.
    do 3 f_equal. lia.
Qed.

(** C5. When the inode identifiers carried by the File nodes of a tree
    are pairwise distinct, aggregating the tree with a fresh dedup set
    yields the plain sum of the disk-usage fields of its File nodes.  A
    File node without an inode identifier is never deduplicated: against
    any dedup set it yields its full disk-usage field and leaves the set
    alone, so [n] copies of it under one directory count [n] times. *)
Theorem distinct_inodes_plain_sum :
  (∀ t, Forall ino_hashable (files t) → Forall dsize_numeric (files t) →
        NoDup (inodes t) →
        ∃ v, get_entry_size_fresh t = Ok (v, list_to_set (inodes t))
             ∧ num_of v = Some (dsize_sum (files t)))
  ∧ (∀ d S, no_inode d →
        get_entry_size (JDict d) S = Ok (default (JInt 0) (d !! "dsize"), S))
  ∧ (∀ d m n S, no_inode d → dsize_numeric d →
        get_entry_size (JList (m :: replicate n (JDict d))) S
          = Ok (JInt (Z.of_nat n * dsize_num d), S)).
Proof.
  split_and!.
  - intros t Hh Hnum Hnd. unfold get_entry_size_fresh.
    pose proof (get_entry_size_agrees t ∅ Hnum) as Ha.
    rewrite (count_files_distinct _ ∅ Hh Hnd) in Ha by set_solver.
    destruct (get_entry_size t ∅) as [[v S']|e]; simpl in Ha; [|done].
    destruct Ha as [Hv ->]. exists v. rewrite Z.add_0_l in Hv. split; [|done].
    do 2 f_equal. set_solver.
  - intros d S Hno%no_inode_get. by apply get_entry_size_no_ino.
  - intros d m n S Hno Hnum.
    rewrite get_entry_size_list, sum_children_no_inode by done.
    by rewrite Z.add_0_l.
Qed.

Lemma distinct_inodes_plain_sum_witness :
  (∃ v, get_entry_size_fresh Fixture.nested_root
          = Ok (v, list_to_set (inodes Fixture.nested_root))
        ∧ num_of v = Some (dsize_sum (files Fixture.nested_root)))
  ∧ get_entry_size (JDict (Fixture.file_no_ino "f" 4096)) {[KInt 1]}
      = Ok (default (JInt 0) (Fixture.file_no_ino "f" 4096 !! "dsize"), {[KInt 1]})
  ∧ get_entry_size
      (JList (Fixture.dir_meta "d"
                :: replicate 3 (JDict (Fixture.file_no_ino "f" 4096)))) ∅
      = Ok (JInt (Z.of_nat 3 * dsize_num (Fixture.file_no_ino "f" 4096)), ∅).
Proof.
  split_and!.
  - apply (proj1 distinct_inodes_plain_sum).
    + repeat constructor.
    + repeat constructor; by eexists.
    + refine (bool_decide_unpack _ _). vm_compute. exact I.
  - apply (proj1 (proj2 distinct_inodes_plain_sum)). left. reflexivity.
  - apply (proj2 (proj2 distinct_inodes_plain_sum)).
    + left. reflexivity.
    + by eexists.
Defined.

(** C10. When every disk-usage field of the File nodes of a tree is
    absent or a number that is not negative, aggregation is antitone in
    the initial dedup set: for [S ⊆ T], both calls return and the total
    against [T] is at most the total against [S].  (The only way either
    call can fail is an unhashable inode field, and then both fail
    alike.) *)
Theorem aggregate_antitone (t : json) (S T : gset key) :
  Forall dsize_nonneg (files t) → S ⊆ T →
  match get_entry_size t S, get_entry_size t T with
  | Ok (vS, _), Ok (vT, _) =>
      ∃ zS zT, num_of vS = Some zS ∧ num_of vT = Some zT ∧ zT ≤ zS
  | Raise e, Raise e' => e = e' ∧ ¬ Forall ino_hashable (files t)
  | _, _ => False
  end.
Proof.
  intros Hnn Hsub.
  assert (Hnum : Forall dsize_numeric (files t))
    by (eapply Forall_impl; [done | apply dsize_nonneg_numeric]).
  pose proof (get_entry_size_agrees t S Hnum) as HS.
  pose proof (get_entry_size_agrees t T Hnum) as HT.
  pose proof (count_files_antitone (files t) S T Hnn Hsub) as Hle.
  destruct (get_entry_size t S) as [[vS S']|eS],
           (count_files (files t) S) as [[zS sS]|eS'] eqn:ES;
    simpl in HS; try done;
  destruct (get_entry_size t T) as [[vT T']|eT],
           (count_files (files t) T) as [[zT sT]|eT'] eqn:ET;
    simpl in HT; try done.
  - destruct HS as [HS _], HT as [HT _]. rewrite Z.add_0_l in HS, HT. eauto.
  - subst. split; [done|]. by eapply count_files_hashable.
Qed.

Lemma aggregate_antitone_witness :
  match get_entry_size Fixture.shared_root ∅,
        get_entry_size Fixture.shared_root {[KInt 7]} with
  | Ok (vS, _), Ok (vT, _) =>
      ∃ zS zT, num_of vS = Some zS ∧ num_of vT = Some zT ∧ zT ≤ zS
  | Raise e, Raise e' => e = e' ∧ ¬ Forall ino_hashable (files Fixture.shared_root)
  | _, _ => False
  end.
Proof.
  apply (aggregate_antitone Fixture.shared_root ∅ {[KInt 7]}).
  - repeat constructor; (eexists; split; [reflexivity | lia]).
  - apply empty_subseteq.
Defined.

(** ** The dedup set after a call *)

Lemma file_key_lookup (d : gmap string json) (k : key) :
  file_key d = Some k →
  ∃ ino, d !! "ino" = Some ino ∧ ino ≠ JNull ∧ py_hash ino = Ok k.
Proof.
  intros [Hn Hk]%file_key_Some. exists (dict_get d "ino").
  split_and!; try done. unfold dict_get in *.
  by destruct (d !! "ino").
Qed.

Lemma sum_children_seen (cs : list json) :
  Forall (λ t, ∀ S v S', get_entry_size t S = Ok (v, S') →
               S' = list_to_set (inodes t) ∪ S) cs →
  ∀ total S v S', sum_children cs total S = Ok (v, S') →
    S' = list_to_set (omap file_key (cs ≫= files)) ∪ S.
Proof.
  induction 1 as [|c cs Hc _ IH]; intros total S v S'; simpl.
  - intros [= _ <-]. set_solver.
  - unfold_bind.
    destruct (get_entry_size c S) as [[v1 S1]|e] eqn:E1; [|done].
    destruct (int_add total v1) as [t|e]; [|done].
    intros ->%IH. rewrite (Hc _ _ _ E1).
    unfold inodes. rewrite omap_app, list_to_set_app_L. set_solver.
Qed.

Lemma get_entry_size_seen (t : json) (S : gset key) (v : json) (S' : gset key) :
  get_entry_size t S = Ok (v, S') → S' = list_to_set (inodes t) ∪ S.
Proof.
  revert S v S'. induction t as [|b|z|s|l IH|d] using json_tree_ind;
    intros S v S'; try (intros [= _ <-]; set_solver).
  - destruct l as [|m cs]; [intros [= _ <-]; set_solver|].
    rewrite get_entry_size_list. unfold inodes. rewrite files_list.
    apply sum_children_seen. by apply Forall_cons in IH as [_ IH].
  - destruct (decide (ino_hashable d)) as [Hh|Hh];
      [|by rewrite get_entry_size_unhashable].
    rewrite get_entry_size_file by done. unfold inodes. simpl.
    destruct (file_key d) as [k|]; [destruct (decide (k ∈ S))|];
      intros [= _ <-]; set_solver.
Qed.

(** C9. A call changes the dedup set only by inserting: the set after
    the call contains the set before, and every element that is new is
    the inode identifier of a File node of the subtree.  The outcome is
    a function of the node and of the elements of the initial set. *)
Theorem aggregate_only_inserts :
  (∀ t S v S', get_entry_size t S = Ok (v, S') →
     S ⊆ S'
     ∧ ∀ k, k ∈ S' → k ∉ S →
         ∃ d ino, d ∈ files t ∧ d !! "ino" = Some ino ∧ ino ≠ JNull
                  ∧ py_hash ino = Ok k)
  ∧ (∀ t1 t2 S1 S2, t1 = t2 → S1 ≡ S2 →
       get_entry_size t1 S1 = get_entry_size t2 S2).
Proof.
  split.
  - intros t S v S' ->%get_entry_size_seen. split; [set_solver|].
    intros k Hk Hnk.
    assert (Hin : k ∈ inodes t) by set_solver.
    apply list_elem_of_omap in Hin as (d & Hd & Hkey).
    apply file_key_lookup in Hkey as (ino & ? & ? & ?). eauto 10.
  - intros t1 t2 S1 S2 -> ->%leibniz_equiv. done.
Qed.

Lemma aggregate_only_inserts_witness :
  ({[KInt 9]} : gset key) ⊆ {[KInt 2]} ∪ ({[KInt 1]} ∪ {[KInt 9]})
  ∧ ∀ k, k ∈ ({[KInt 2]} ∪ ({[KInt 1]} ∪ {[KInt 9]}) : gset key) →
         k ∉ ({[KInt 9]} : gset key) →
         ∃ d ino, d ∈ files Fixture.nested_root ∧ d !! "ino" = Some ino
                  ∧ ino ≠ JNull ∧ py_hash ino = Ok k.
Proof.
  apply (proj1 aggregate_only_inserts Fixture.nested_root {[KInt 9]} (JInt 8192)).
  reflexivity.
Defined.

(** ** The extractor *)

Lemma generate_located (doc : gmap string json) (root_entry : json) :
  located doc root_entry →
  generate_metadata (JDict doc) = summarize_root root_entry (base_metadata doc).
Proof.
  intros (arr & Hd & H3). unfold generate_metadata, dict_get_default.
  rewrite Hd. simpl. unfold_bind.
  rewrite bool_decide_true by (by apply lookup_lt_Some in H3).
  by rewrite H3.
Qed.

(** What a successful [summarize_root] on a non-empty sequence did. *)
Lemma summarize_root_inv (m : json) (cs : list json) (md s : summary) :
  summarize_root (JList (m :: cs)) md = Ok s →
  ∃ es S',
    top_level_loop cs [] ∅ = Ok (es, S')
    ∧ top_entries s = Some es
    ∧ total_entries s = Some (Z.of_nat (length (m :: cs)) - 1)
    ∧ ((∃ d v S1, m = JDict d
                  ∧ get_entry_size (JList (m :: cs)) ∅ = Ok (v, S1)
                  ∧ total_size s = Some v)
       ∨ ((∀ d, m ≠ JDict d) ∧ total_size s = total_size md)).
Proof.
  unfold summarize_root, get_entry_size_fresh. unfold_bind.
  destruct m as [|b|z|str|l|d];
    try (destruct (top_level_loop cs [] ∅) as [[es S']|e]; [|done];
         intros [= <-]; exists es, S'; split_and!; try done;
         right; split; [by intros ?|done]).
  destruct (get_entry_size (JList (JDict d :: cs)) ∅) as [[v S1]|e]; [|done].
  destruct (top_level_loop cs [] ∅) as [[es S']|e]; [|done].
  intros [= <-]. exists es, S'. split_and!; try done.
  left. by exists d, v, S1.
Qed.

Lemma top_level_loop_unrecognized (pre post : list json) (c : json)
    (acc : list top_entry) (S : gset key) :
  unrecognized c →
  top_level_loop (pre ++ c :: post) acc S = top_level_loop (pre ++ post) acc S.
Proof.
  intros Hc. revert acc S. induction pre as [|p pre IH]; intros acc S.
  - destruct c as [| | | |[|x l]|]; simpl in Hc; done.
  - cbn [app top_level_loop]. unfold_bind.
    destruct p as [| | | |[|[] l]|]; try apply IH;
      (destruct (get_entry_size _ S) as [[v S1]|e]; [apply IH|done]).
Qed.

Lemma top_level_loop_shape (cs : list json) (acc es : list top_entry)
    (S S' : gset key) :
  top_level_loop cs acc S = Ok (es, S') →
  shape_of <$> es = (shape_of <$> acc) ++ omap entry_shape cs.
Proof.
  revert acc S. induction cs as [|c cs IH]; intros acc S.
  - simpl. intros [= <- _]. by rewrite app_nil_r.
  - cbn [top_level_loop]. unfold_bind.
    destruct c as [| | | |[|[] l]|]; try apply IH;
      (destruct (get_entry_size _ S) as [[v S1]|e]; [|done]);
      intros ->%IH; rewrite fmap_app, <- app_assoc; done.
Qed.

(** C6. A value that is neither a mapping nor a sequence with at least
    one element aggregates to 0 without an error and leaves the dedup
    set alone; as a child of the root it produces no entry: the loop
    behaves as if the child were not there, and the [top_entries] of the
    summary are those of the other children. *)
Theorem unrecognized_shape_tolerated (c : json) :
  unrecognized c →
  (∀ S, get_entry_size c S = Ok (JInt 0, S))
  ∧ (∀ pre post acc S,
       top_level_loop (pre ++ c :: post) acc S
         = top_level_loop (pre ++ post) acc S)
  ∧ (∀ doc m pre post s,
       located doc (JList (m :: pre ++ c :: post)) →
       generate_metadata (JDict doc) = Ok s →
       ∃ es S', top_level_loop (pre ++ post) [] ∅ = Ok (es, S')
                ∧ top_entries s = Some es).
Proof.
  intros Hc. split_and!.
  - intros S. by apply get_entry_size_unrecognized.
  - intros. by apply top_level_loop_unrecognized.
  - intros doc m pre post s Hloc Hgen.
    rewrite (generate_located _ _ Hloc) in Hgen.
    apply summarize_root_inv in Hgen as (es & S' & Hloop & Hes & _).
    rewrite top_level_loop_unrecognized in Hloop by done. eauto.
Qed.

Lemma unrecognized_shape_tolerated_witness :
  get_entry_size (JStr "junk") {[KInt 1]} = Ok (JInt 0, {[KInt 1]})
  ∧ ∃ s, generate_metadata (JDict (Fixture.document Fixture.ragged_root)) = Ok s
         ∧ ∃ es S',
             top_level_loop ([Fixture.file "f" 4096 1] ++ [JList []]) [] ∅
               = Ok (es, S')
             ∧ top_entries s = Some es.
Proof.
  split.
  - apply (proj1 (unrecognized_shape_tolerated (JStr "junk") I)).
  - eexists. split; [reflexivity|].
    apply (proj2 (proj2 (unrecognized_shape_tolerated (JStr "junk") I))
             (Fixture.document Fixture.ragged_root) (Fixture.dir_meta "root")).
    + eexists. split; reflexivity.
    + reflexivity.
Defined.

(** C7. Whenever a root node is located and a summary is produced,
    [total_entries] is the length of the root sequence minus one,
    whatever the shapes of the children; with children of unrecognized
    shape it strictly exceeds the number of [top_entries]. *)
Theorem total_entries_counts_children :
  (∀ doc m cs s,
     located doc (JList (m :: cs)) →
     generate_metadata (JDict doc) = Ok s →
     total_entries s = Some (Z.of_nat (length (m :: cs)) - 1))
  ∧ (∃ doc s es n,
       generate_metadata (JDict doc) = Ok s
       ∧ top_entries s = Some es ∧ total_entries s = Some n
       ∧ Z.of_nat (length es) < n).
Proof.
  split.
  - intros doc m cs s Hloc Hgen.
    rewrite (generate_located _ _ Hloc) in Hgen.
    by apply summarize_root_inv in Hgen as (es & S' & _ & _ & Hn & _).
  - exists (Fixture.document Fixture.ragged_root).
    eexists. eexists. exists 3. split_and!; [reflexivity..|]. simpl. lia.
Qed.

Lemma total_entries_counts_children_witness :
  ∃ s, generate_metadata (JDict (Fixture.document Fixture.ragged_root)) = Ok s
       ∧ total_entries s
         = Some (Z.of_nat
                   (length [Fixture.dir_meta "root"; Fixture.file "f" 4096 1;
                            JStr "junk"; JList []]) - 1).
Proof.
  eexists. split; [reflexivity|].
  apply (proj1 total_entries_counts_children
           (Fixture.document Fixture.ragged_root) (Fixture.dir_meta "root")).
  - eexists. split; reflexivity.
  - reflexivity.
Defined.

(** C8. [top_entries] lists the recognized children of the root in the
    order of the source array.  A Directory child gets its name from its
    metadata element (['unknown'] when absent) and its flag is true
    exactly when the child sequence has more than one element; a File
    child gets its name from the mapping itself and its flag is false. *)
Theorem top_entries_order_names_flags (doc : gmap string json) (m : json)
    (cs : list json) (s : summary) :
  located doc (JList (m :: cs)) →
  generate_metadata (JDict doc) = Ok s →
  ∃ es, top_entries s = Some es ∧ shape_of <$> es = omap entry_shape cs.
Proof.
  intros Hloc Hgen. rewrite (generate_located _ _ Hloc) in Hgen.
  apply summarize_root_inv in Hgen as (es & S' & Hloop & Hes & _).
  exists es. split; [done|]. by apply top_level_loop_shape in Hloop.
Qed.

Lemma top_entries_order_names_flags_witness :
  ∃ s, generate_metadata (JDict (Fixture.document Fixture.nested_root)) = Ok s
       ∧ ∃ es, top_entries s = Some es
               ∧ shape_of <$> es
                 = [(JStr "subdir", true); (JStr "file2.txt", false)].
Proof.
  eexists. split; [reflexivity|].
  apply (top_entries_order_names_flags
           (Fixture.document Fixture.nested_root) (Fixture.dir_meta "root")
           [JList [Fixture.dir_meta "subdir"; Fixture.file "file1.txt" 4096 1];
            Fixture.file "file2.txt" 4096 2]).
  - eexists. split; reflexivity.
  - reflexivity.
Defined.

(** C4 fails as stated: with four elements in the data array the three
    computed fields are all absent when element 3 is not a sequence, and
    [total_size] alone is absent when element 3 is a sequence whose
    first element is not a mapping. *)
Lemma computed_fields_counterexample :
  Fixture.document (JInt 5) !! "data"
    = Some (JList [JInt 1; JInt 2; JDict ∅; JInt 5])
  ∧ (∃ s, generate_metadata (JDict (Fixture.document (JInt 5))) = Ok s
          ∧ total_size s = None ∧ top_entries s = None
          ∧ total_entries s = None)
  ∧ (∃ s, generate_metadata (JDict (Fixture.document (JList [JInt 5]))) = Ok s
          ∧ total_size s = None ∧ top_entries s = Some []
          ∧ total_entries s = Some 0).
Proof. split_and!; [reflexivity | eexists; split_and!; reflexivity..]. Qed.

(** C4, amended.  The summary omits [total_size], [top_entries] and
    [total_entries] together whenever the data array has 3 or fewer
    elements or its element 3 is not a sequence with at least one
    element.  When element 3 is such a sequence and a summary is
    produced, [top_entries] and [total_entries] are both present, and
    [total_size] is present exactly when the first element of that
    sequence is a mapping. *)
Theorem computed_fields_presence (doc : gmap string json) :
  (∀ arr, dict_get_default doc "data" (JList []) = JList arr →
     (length arr ≤ 3)%nat
     ∨ (∃ r, arr !! 3%nat = Some r ∧ ∀ m cs, r ≠ JList (m :: cs)) →
     ∃ s, generate_metadata (JDict doc) = Ok s
          ∧ total_size s = None ∧ top_entries s = None
          ∧ total_entries s = None)
  ∧ (∀ m cs s, located doc (JList (m :: cs)) →
       generate_metadata (JDict doc) = Ok s →
       is_Some (top_entries s) ∧ is_Some (total_entries s)
       ∧ (is_Some (total_size s) ↔ ∃ d, m = JDict d)).
Proof.
  split.
  - intros arr Hd Hcase. exists (base_metadata doc).
    split; [|done]. unfold generate_metadata. rewrite Hd. simpl. unfold_bind.
    destruct Hcase as [Hlen | (r & H3 & Hr)].
    + rewrite bool_decide_false by lia. done.
    + rewrite bool_decide_true by (by apply lookup_lt_Some in H3).
      rewrite H3. destruct r as [| | | |[|m cs]|]; try done.
      by destruct (Hr m cs).
  - intros m cs s Hloc Hgen. rewrite (generate_located _ _ Hloc) in Hgen.
    apply summarize_root_inv in Hgen
      as (es & S' & _ & Hes & Hn & [(d & v & S1 & -> & _ & Ht)|[Hm Ht]]).
    + rewrite Hes, Hn, Ht. split_and!; eauto. split; eauto.
    + rewrite Hes, Hn, Ht. split_and!; eauto. split.
      * by intros [? [=]].
      * intros [d ->]. by destruct (Hm d).
Qed.

Lemma computed_fields_presence_witness :
  (∃ s, generate_metadata (JDict (Fixture.document (JList []))) = Ok s
        ∧ total_size s = None ∧ top_entries s = None ∧ total_entries s = None)
  ∧ ∃ s, generate_metadata (JDict (Fixture.document Fixture.nested_root)) = Ok s
         ∧ is_Some (top_entries s) ∧ is_Some (total_entries s)
         ∧ (is_Some (total_size s) ↔ ∃ d, Fixture.dir_meta "root" = JDict d).
Proof.
  split.
  - apply (proj1 (computed_fields_presence (Fixture.document (JList [])))
             [JInt 1; JInt 2; JDict ∅; JList []]).
    + reflexivity.
    + right. exists (JList []). split; [reflexivity | discriminate].
  - eexists. split; [reflexivity|].
    apply (proj2 (computed_fields_presence (Fixture.document Fixture.nested_root))
             (Fixture.dir_meta "root")
             [JList [Fixture.dir_meta "subdir"; Fixture.file "file1.txt" 4096 1];
              Fixture.file "file2.txt" 4096 2]).
    + eexists. split; reflexivity.
    + reflexivity.
Defined.

(** ** The two passes of the extractor *)

Lemma listed_not_headless (c : json) : listed c = true → headless c = false.
Proof. by destruct c as [| | | |[|[] l]|]. Qed.

(** The entry sizes are the aggregates of the listed children, computed
    in order against one set. *)
Lemma top_level_loop_each (cs : list json) (acc es : list top_entry)
    (S S' : gset key) :
  top_level_loop cs acc S = Ok (es, S') →
  ∃ es', es = acc ++ es'
         ∧ aggregate_each (filter (λ c, listed c = true) cs) S
           = Ok (te_size <$> es', S').
Proof.
  revert acc S. induction cs as [|c cs IH]; intros acc S.
  - simpl. intros [= <- <-]. exists []. by rewrite app_nil_r.
  - cbn [top_level_loop]. unfold_bind.
    destruct c as [| | | |[|[] l]|];
      try (rewrite filter_cons_False by done; apply IH);
      rewrite filter_cons_True by done; cbn [aggregate_each]; unfold_bind;
      (destruct (get_entry_size _ S) as [[v S1]|e]; [|done]);
      intros (es' & -> & ->)%IH; eexists; (split; [by rewrite <- app_assoc|done]).
Qed.

(** When no child is a sequence headed by a non-mapping, the children
    loop of the aggregator and the loop of the extractor make the same
    calls in the same order. *)
Lemma top_level_loop_sum (cs : list json) (acc : list top_entry)
    (total : Z) (S S1 : gset key) (v : json) :
  Forall (λ c, headless c = false) cs →
  sum_children cs total S = Ok (v, S1) →
  ∃ es z, top_level_loop cs acc S = Ok (acc ++ es, S1)
          ∧ entries_sum es = Some z ∧ v = JInt (total + z).
Proof.
  intros Hh. revert acc total S.
  induction Hh as [|c cs Hc _ IH]; intros acc total S.
  - simpl. intros [= <- <-]. exists [], 0.
    rewrite app_nil_r, Z.add_0_r. done.
  - cbn [sum_children top_level_loop]. unfold_bind.
    assert (Hskip : get_entry_size c S = Ok (JInt 0, S) →
      top_level_loop (c :: cs) acc S = top_level_loop cs acc S →
      match get_entry_size c S with
      | Ok (v1, S') =>
          match int_add total v1 with
          | Ok t => sum_children cs t S'
          | Raise e => Raise e
          end
      | Raise e => Raise e
      end = Ok (v, S1) →
      ∃ es z, top_level_loop (c :: cs) acc S = Ok (acc ++ es, S1)
              ∧ entries_sum es = Some z ∧ v = JInt (total + z)).
    { intros -> ->. simpl. rewrite Z.add_0_r. apply IH. }
    assert (Hkeep : ∀ name flag,
      (∀ acc', top_level_loop (c :: cs) acc' S =
         match get_entry_size c S with
         | Ok (size, S') =>
             top_level_loop cs (acc' ++ [TopEntry size name flag]) S'
         | Raise e => Raise e
         end) →
      match get_entry_size c S with
      | Ok (v1, S') =>
          match int_add total v1 with
          | Ok t => sum_children cs t S'
          | Raise e => Raise e
          end
      | Raise e => Raise e
      end = Ok (v, S1) →
      ∃ es z, top_level_loop (c :: cs) acc S = Ok (acc ++ es, S1)
              ∧ entries_sum es = Some z ∧ v = JInt (total + z)).
    { intros name flag Hloop. rewrite Hloop.
      destruct (get_entry_size c S) as [[v1 S']|e]; [|done].
      destruct (int_add total v1) as [t|e] eqn:E; [|done].
      apply int_add_num in E as (z1 & Hz1 & ->).
      intros (es & z & -> & Hz & ->)%(IH (acc ++ [TopEntry v1 name flag])).
      exists (TopEntry v1 name flag :: es), (z1 + z). split_and!.
      - by rewrite <- app_assoc.
      - simpl. rewrite Hz1, Hz. done.
      - f_equal. lia. }
    destruct c as [| | | |[|[] l]|]; try done;
      try (apply Hskip; done); eapply Hkeep; intros; reflexivity.
Qed.

(** The summary of a located root: the grand total is the aggregate of
    the root against an empty set, and, when no top-level child is a
    sequence headed by a non-mapping, the entry sizes add up to it. *)
Lemma summary_sum_total (doc : gmap string json) (m : json) (cs : list json)
    (s : summary) (t : json) (es : list top_entry) :
  located doc (JList (m :: cs)) →
  generate_metadata (JDict doc) = Ok s →
  Forall (λ c, headless c = false) cs →
  total_size s = Some t → top_entries s = Some es →
  ∃ z, t = JInt z ∧ entries_sum es = Some z.
Proof.
  intros Hloc Hgen Hh Ht Hes. rewrite (generate_located _ _ Hloc) in Hgen.
  apply summarize_root_inv in Hgen
    as (es0 & S' & Hloop & Hes0 & _ & [(d & v & S1 & -> & Hv & Ht0)|[_ Ht0]]).
  - rewrite get_entry_size_list in Hv.
    apply (top_level_loop_sum cs [] 0 ∅ S1 v Hh) in Hv
      as (es1 & z & Hloop1 & Hz & ->).
    rewrite Hloop in Hloop1. simplify_eq. rewrite Z.add_0_l. eauto.
  - rewrite Ht0 in Ht. done.
Qed.



(** ** Further properties of the aggregator *)

Lemma py_hash_raises (v : json) (e : exn) : py_hash v = Raise e → e = TypeError.
Proof. destruct v; simpl; congruence. Qed.

Lemma int_add_raises (total : Z) (v : json) (e : exn) :
  int_add total v = Raise e → e = TypeError.
Proof. destruct v; simpl; congruence. Qed.



Lemma sum_children_int (cs : list json) (total : Z) (S S' : gset key) (v : json) :
  sum_children cs total S = Ok (v, S') → ∃ z, v = JInt z.
Proof. intros (zs & _ & ->)%sum_children_threaded. eauto. Qed.

Lemma count_files_ok_hashable (fs : list (gmap string json)) (S S' : gset key)
    (z : Z) :
  count_files fs S = Ok (z, S') → Forall ino_hashable fs.
Proof.
  revert S z S'. induction fs as [|d fs IH]; intros S z S'; simpl; [done|].
  destruct (decide (ino_hashable d)) as [Hd|]; [|done].
  assert (Hadd : ∀ S0, add_count (dsize_num d) (count_files fs S0) = Ok (z, S') →
                       Forall ino_hashable (d :: fs)).
  { intros S0 Hc. destruct (count_files fs S0) as [[z0 s0]|e] eqn:E; [|done].
    constructor; [done|]. by eapply IH. }
  destruct (file_key d) as [k|]; [|apply Hadd].
  destruct (decide (k ∈ S)); [|apply Hadd].
  intros Hc. constructor; [done|]. by eapply IH.
Qed.



(** When every disk-usage field is absent or a number, the aggregator
    returns exactly when every inode field of the tree is hashable (an
    integer, a boolean, a string, [None] or absent). *)
Theorem aggregate_returns_iff_hashable (t : json) (S : gset key) :
  Forall dsize_numeric (files t) →
  (∃ v S', get_entry_size t S = Ok (v, S')) ↔ Forall ino_hashable (files t).
Proof.
  intros Hnum. pose proof (get_entry_size_agrees t S Hnum) as Ha. split.
  - intros (v & S' & Hv). rewrite Hv in Ha.
    destruct (count_files (files t) S) as [[z s]|e] eqn:E; [|done].
    by eapply count_files_ok_hashable.
  - intros Hh.
    destruct (get_entry_size t S) as [[v S']|e]; [eauto|].
    destruct (count_files (files t) S) as [[z s]|e'] eqn:E; [done|].
    by apply count_files_hashable in E.
Qed.

Lemma aggregate_returns_iff_hashable_witness :
  (∃ v S', get_entry_size Fixture.nested_root ∅ = Ok (v, S'))
  ↔ Forall ino_hashable (files Fixture.nested_root).
Proof.
  apply (aggregate_returns_iff_hashable Fixture.nested_root ∅).
  repeat constructor; by eexists.
Defined.

(** *** Grouping into directories *)

(** Starting the children loop at [a + b] instead of [b] shifts the
    total by [a]. *)
Lemma sum_children_shift (cs : list json) (a b : Z) (S : gset key) :
  sum_children cs (a + b) S =
    '(v, S1) ← sum_children cs b S; t ← int_add a v; Ok (JInt t, S1).
Proof.
  revert b S. induction cs as [|c cs IH]; intros b S; simpl; [done|].
  unfold_bind.
  destruct (get_entry_size c S) as [[v1 S1]|e]; [|done].
  destruct (int_add b v1) as [t|e] eqn:E.
  - apply int_add_num in E as (z & Hz & ->).
    assert (E : int_add (a + b) v1 = Ok (a + (b + z)))
      by (apply int_add_num; exists z; split; [done | lia]).
    rewrite E. apply IH.
  - destruct (int_add (a + b) v1) as [t|e'] eqn:E'.
    + apply int_add_num in E' as (z & Hz & _).
      assert (E2 : int_add b v1 = Ok (b + z)) by (apply int_add_num; eauto).
      congruence.
    + apply int_add_raises in E as ->. by apply int_add_raises in E' as ->.
Qed.

Lemma sum_children_app (cs1 cs2 : list json) (total : Z) (S : gset key) :
  sum_children (cs1 ++ cs2) total S =
    '(v, S1) ← sum_children cs1 total S; t ← int_add 0 v; sum_children cs2 t S1.
Proof.
  revert total S. induction cs1 as [|c cs1 IH]; intros total S; simpl.
  - unfold_bind. by rewrite Z.add_0_l.
  - unfold_bind.
    destruct (get_entry_size c S) as [[v1 S1]|e]; [|done].
    destruct (int_add total v1) as [t|e]; [|done].
    apply IH.
Qed.

(** A directory child contributes what its own children would
    contribute in its place. *)
Lemma sum_children_directory (m : json) (cs : list json) (total : Z)
    (S : gset key) :
  sum_children [JList (m :: cs)] total S = sum_children cs total S.
Proof.
  cbn [sum_children]. rewrite get_entry_size_list.
  replace (sum_children cs total S) with (sum_children cs (total + 0) S)
    by (f_equal; lia).
  rewrite sum_children_shift.
  unfold_bind. destruct (sum_children cs 0 S) as [[v S1]|e]; [|done].
  by destruct (int_add total v).
Qed.

Lemma sum_children_middle (pre xs ys post : list json) :
  (∀ total S, sum_children xs total S = sum_children ys total S) →
  ∀ total S, sum_children (pre ++ xs ++ post) total S
             = sum_children (pre ++ ys ++ post) total S.
Proof.
  intros Heq total S. rewrite !(sum_children_app pre). unfold_bind.
  destruct (sum_children pre total S) as [[v S1]|e]; [|done].
  destruct (int_add 0 v) as [t|e]; [|done].
  rewrite !sum_children_app. by rewrite Heq.
Qed.

(** Totals do not depend on how the files are grouped: when the
    disk-usage fields are absent or numbers, replacing a sub-directory
    by its children, in place, changes neither the outcome of the
    enclosing directory nor the dedup set. *)
Theorem aggregate_ignores_grouping (m m' : json) (pre cs post : list json)
    (S : gset key) :
  Forall dsize_numeric (files (JList (m :: pre ++ cs ++ post))) →
  get_entry_size (JList (m :: pre ++ [JList (m' :: cs)] ++ post)) S
  = get_entry_size (JList (m :: pre ++ cs ++ post)) S.
Proof.
  intros _. rewrite !get_entry_size_list. apply sum_children_middle.
  intros. apply sum_children_directory.
Qed.

Lemma aggregate_ignores_grouping_witness :
  get_entry_size
    (JList (Fixture.dir_meta "root"
              :: [Fixture.file "a" 10 1]
              ++ [JList (Fixture.dir_meta "sub"
                           :: [Fixture.file "b" 20 1; Fixture.file "c" 30 2])]
              ++ [Fixture.file "d" 40 2])) ∅
  = get_entry_size
      (JList (Fixture.dir_meta "root"
                :: [Fixture.file "a" 10 1]
                ++ [Fixture.file "b" 20 1; Fixture.file "c" 30 2]
                ++ [Fixture.file "d" 40 2])) ∅.
Proof.
  apply (aggregate_ignores_grouping (Fixture.dir_meta "root")
           (Fixture.dir_meta "sub")).
  repeat constructor; by eexists.
Defined.

Lemma sum_children_app_ok (cs1 cs2 : list json) (S S2 : gset key) (v : json) :
  sum_children (cs1 ++ cs2) 0 S = Ok (v, S2) ↔
  ∃ z1 z2 S1,
    sum_children cs1 0 S = Ok (JInt z1, S1)
    ∧ sum_children cs2 0 S1 = Ok (JInt z2, S2)
    ∧ v = JInt (z1 + z2).
Proof.
  rewrite sum_children_app. split.
  - unfold_bind.
    destruct (sum_children cs1 0 S) as [[v1 S1]|e] eqn:E1; [|done].
    destruct (sum_children_int _ _ _ _ _ E1) as [z1 ->]. cbn [int_add].
    replace (0 + z1) with (z1 + 0) by lia. rewrite sum_children_shift.
    unfold_bind.
    destruct (sum_children cs2 0 S1) as [[v2 S2']|e] eqn:E2; [|done].
    destruct (sum_children_int _ _ _ _ _ E2) as [z2 ->]. cbn [int_add].
    intros [= <- <-]. by exists z1, z2, S1.
  - intros (z1 & z2 & S1 & H1 & H2 & ->). rewrite H1. unfold_bind.
    cbn [int_add]. replace (0 + z1) with (z1 + 0) by lia.
    rewrite sum_children_shift, H2. done.
Qed.

(** When the disk-usage fields are absent or numbers, aggregating a
    directory whose children are [cs1 ++ cs2] is aggregating [cs1], then
    [cs2] against the set left by [cs1], and adding the two totals; it
    fails when either part does. *)
Theorem aggregate_splits (m : json) (cs1 cs2 : list json) (S S2 : gset key)
    (v : json) :
  Forall dsize_numeric (files (JList (m :: cs1 ++ cs2))) →
  get_entry_size (JList (m :: cs1 ++ cs2)) S = Ok (v, S2) ↔
  ∃ z1 z2 S1,
    get_entry_size (JList (m :: cs1)) S = Ok (JInt z1, S1)
    ∧ get_entry_size (JList (m :: cs2)) S1 = Ok (JInt z2, S2)
    ∧ v = JInt (z1 + z2).
Proof.
  intros _. rewrite get_entry_size_list, sum_children_app_ok.
  split; intros (z1 & z2 & S1 & H1 & H2 & ->); exists z1, z2, S1;
    rewrite ?get_entry_size_list in *; done.
Qed.

Lemma aggregate_splits_witness :
  ∃ z1 z2 S1,
    get_entry_size
      (JList (Fixture.dir_meta "d" :: [Fixture.file "a" 10 1])) ∅
      = Ok (JInt z1, S1)
    ∧ get_entry_size
        (JList (Fixture.dir_meta "d" :: [Fixture.file "b" 20 1;
                                        Fixture.file "c" 30 2])) S1
      = Ok (JInt z2, {[KInt 2]} ∪ ({[KInt 1]} ∪ ∅))
    ∧ JInt 40 = JInt (z1 + z2).
Proof.
  apply (proj1 (aggregate_splits (Fixture.dir_meta "d")
                  [Fixture.file "a" 10 1]
                  [Fixture.file "b" 20 1; Fixture.file "c" 30 2]
                  ∅ ({[KInt 2]} ∪ ({[KInt 1]} ∪ ∅)) (JInt 40)
                  ltac:(repeat constructor; by eexists))).
  reflexivity.
Defined.

(** *** Which File nodes are counted *)

Lemma count_files_counted (fs : list (gmap string json)) (S : gset key) :
  Forall ino_hashable fs →
  count_files fs S
  = Ok (dsize_sum (counted fs S), list_to_set (omap file_key fs) ∪ S).
Proof.
  intros Hh. revert S. induction Hh as [|d fs Hd _ IH]; intros S; simpl.
  - do 2 f_equal. set_solver.
  - rewrite decide_True by done.
    destruct (file_key d) as [k|]; [destruct (decide (k ∈ S))|];
      rewrite IH; simpl; do 2 f_equal; set_solver.
Qed.

Lemma counted_sublist (fs : list (gmap string json)) (S : gset key) :
  counted fs S `sublist_of` fs.
Proof.
  revert S. induction fs as [|d fs IH]; intros S; simpl; [done|].
  destruct (file_key d) as [k|]; [destruct (decide (k ∈ S))|].
  - by apply sublist_cons.
  - by apply sublist_skip.
  - by apply sublist_skip.
Qed.

Lemma omap_file_key_cons (d : gmap string json) (fs : list (gmap string json)) :
  omap file_key (d :: fs)
  = match file_key d with
    | Some k => k :: omap file_key fs
    | None => omap file_key fs
    end.
Proof. done. Qed.

Lemma counted_keys (fs : list (gmap string json)) (S : gset key) (k : key) :
  k ∈ omap file_key (counted fs S) ↔ k ∈ omap file_key fs ∧ k ∉ S.
Proof.
  revert S. induction fs as [|d fs IH]; intros S.
  - set_solver.
  - cbn [counted]. rewrite omap_file_key_cons.
    destruct (file_key d) as [k'|] eqn:E; [destruct (decide (k' ∈ S))|];
      rewrite ?omap_file_key_cons, ?E.
    + pose proof (IH S). set_solver.
    + pose proof (IH ({[k']} ∪ S)).
      destruct (decide (k = k')) as [->|]; set_solver.
    + apply IH.
Qed.

Lemma counted_NoDup (fs : list (gmap string json)) (S : gset key) :
  NoDup (omap file_key (counted fs S)).
Proof.
  revert S. induction fs as [|d fs IH]; intros S; [constructor|].
  cbn [counted].
  destruct (file_key d) as [k|] eqn:E; [destruct (decide (k ∈ S))|];
    rewrite ?omap_file_key_cons, ?E; try apply IH.
  constructor; [|apply IH]. rewrite counted_keys. set_solver.
Qed.

Lemma counted_no_key (fs : list (gmap string json)) (S : gset key) :
  filter (λ d, file_key d = None) (counted fs S)
  = filter (λ d, file_key d = None) fs.
Proof.
  revert S. induction fs as [|d fs IH]; intros S; simpl; [done|].
  destruct (file_key d) as [k|] eqn:E; [destruct (decide (k ∈ S))|].
  - rewrite filter_cons_False by (by rewrite E). apply IH.
  - rewrite !filter_cons_False by (by rewrite E). apply IH.
  - rewrite !filter_cons_True by done. by rewrite IH.
Qed.

Lemma dsize_sum_sublist (fs1 fs2 : list (gmap string json)) :
  fs1 `sublist_of` fs2 → Forall dsize_nonneg fs2 →
  0 ≤ dsize_sum fs1 ≤ dsize_sum fs2.
Proof.
  induction 1 as [|d l1 l2 _ IH|d l1 l2 _ IH]; simpl.
  - lia.
  - intros [Hd%dsize_nonneg_num Hl]%Forall_cons. specialize (IH Hl). lia.
  - intros [Hd%dsize_nonneg_num Hl]%Forall_cons. specialize (IH Hl). lia.
Qed.

(** What a successful call computed, through the pass over File nodes. *)
Lemma get_entry_size_counted (t : json) (S S' : gset key) (v : json) :
  Forall dsize_numeric (files t) →
  get_entry_size t S = Ok (v, S') →
  Forall ino_hashable (files t)
  ∧ num_of v = Some (dsize_sum (counted (files t) S)).
Proof.
  intros Hnum Hv. pose proof (get_entry_size_agrees t S Hnum) as Ha.
  rewrite Hv in Ha.
  destruct (count_files (files t) S) as [[z s]|e] eqn:E; [|done].
  destruct Ha as [Hz _].
  pose proof (count_files_ok_hashable _ _ _ _ E) as Hh. split; [done|].
  rewrite count_files_counted in E by done. simplify_eq.
  by rewrite Z.add_0_l in Hz.
Qed.

(** Hard links are counted once.  The total of a successful call is the
    plain sum over a selection of the File nodes of the tree, taken in
    traversal order, in which no inode identifier occurs twice.  The
    selection holds every File node without identifier and one File node
    for each identifier of the tree that was not in the initial set,
    and no other. *)
Theorem hard_links_counted_once (t : json) (S S' : gset key) (v : json) :
  Forall dsize_numeric (files t) →
  get_entry_size t S = Ok (v, S') →
  ∃ fs, fs `sublist_of` files t
        ∧ num_of v = Some (dsize_sum fs)
        ∧ NoDup (omap file_key fs)
        ∧ (∀ k, k ∈ omap file_key fs ↔ k ∈ inodes t ∧ k ∉ S)
        ∧ filter (λ d, file_key d = None) fs
          = filter (λ d, file_key d = None) (files t).
Proof.
  intros Hnum Hv.
  destruct (get_entry_size_counted t S S' v Hnum Hv) as [_ Hz].
  exists (counted (files t) S). split_and!.
  - apply counted_sublist.
  - done.
  - apply counted_NoDup.
  - intros k. apply counted_keys.
  - apply counted_no_key.
Qed.

Lemma hard_links_counted_once_witness :
  ∃ fs, fs `sublist_of` files Fixture.shared_root
        ∧ num_of (JInt 4096) = Some (dsize_sum fs)
        ∧ NoDup (omap file_key fs)
        ∧ (∀ k, k ∈ omap file_key fs ↔ k ∈ inodes Fixture.shared_root ∧ k ∉ (∅ : gset key))
        ∧ filter (λ d, file_key d = None) fs
          = filter (λ d, file_key d = None) (files Fixture.shared_root).
Proof.
  apply (hard_links_counted_once Fixture.shared_root ∅ ({[KInt 7]} ∪ ∅)).
  - repeat constructor; by eexists.
  - reflexivity.
Defined.

(** With disk-usage fields that are not negative, a successful total
    lies between 0 and the plain sum of the disk-usage fields of the
    File nodes: deduplication never adds to the naive total. *)
Theorem aggregate_bounds (t : json) (S S' : gset key) (v : json) :
  Forall dsize_nonneg (files t) →
  get_entry_size t S = Ok (v, S') →
  ∃ z, num_of v = Some z ∧ 0 ≤ z ≤ dsize_sum (files t).
Proof.
  intros Hnn Hv.
  assert (Hnum : Forall dsize_numeric (files t))
    by (eapply Forall_impl; [done | apply dsize_nonneg_numeric]).
  destruct (get_entry_size_counted t S S' v Hnum Hv) as [_ Hz].
  eexists. split; [done|].
  apply dsize_sum_sublist; [apply counted_sublist | done].
Qed.

Lemma aggregate_bounds_witness :
  ∃ z, num_of (JInt 4096) = Some z
       ∧ 0 ≤ z ≤ dsize_sum (files Fixture.shared_root).
Proof.
  apply (aggregate_bounds Fixture.shared_root ∅ ({[KInt 7]} ∪ ∅)).
  - repeat constructor; (eexists; split; [reflexivity | lia]).
  - reflexivity.
Defined.

Lemma counted_all_seen (fs : list (gmap string json)) (S : gset key) :
  (∀ k, k ∈ omap file_key fs → k ∈ S) →
  counted fs S = filter (λ d, file_key d = None) fs.
Proof.
  induction fs as [|d fs IH]; intros Hin; [done|].
  cbn [counted]. rewrite omap_file_key_cons in Hin.
  destruct (file_key d) as [k|] eqn:E.
  - rewrite decide_True by (apply Hin; left).
    rewrite filter_cons_False by (by rewrite E).
    apply IH. intros k' Hk'. apply Hin. by right.
  - rewrite filter_cons_True by done. by rewrite IH.
Qed.

(** Aggregating a tree a second time against the set left by a first
    successful call neither fails nor changes the set, and counts only
    the File nodes without inode identifier: everything else is
    suppressed, so the second total is 0 when every File node carries an
    identifier. *)
Theorem reaggregation_suppressed (t : json) (S S' : gset key) (v : json) :
  Forall dsize_numeric (files t) →
  get_entry_size t S = Ok (v, S') →
  ∃ v', get_entry_size t S' = Ok (v', S')
        ∧ num_of v'
          = Some (dsize_sum (filter (λ d, file_key d = None) (files t)))
        ∧ (Forall (λ d, is_Some (file_key d)) (files t) → num_of v' = Some 0).
Proof.
  intros Hnum Hv.
  destruct (get_entry_size_counted t S S' v Hnum Hv) as [Hh _].
  apply get_entry_size_seen in Hv as ->.
  set (S' := list_to_set (inodes t) ∪ S).
  pose proof (get_entry_size_agrees t S' Hnum) as Ha.
  rewrite count_files_counted in Ha by done.
  rewrite counted_all_seen in Ha by (unfold S', inodes; set_solver).
  destruct (get_entry_size t S') as [[v' s']|e]; [|done].
  destruct Ha as [Hz ->]. rewrite Z.add_0_l in Hz.
  exists v'. split_and!.
  - do 2 f_equal. unfold S', inodes. set_solver.
  - done.
  - intros Hall. rewrite Hz. do 2 f_equal.
    clear -Hall. induction Hall as [|d fs [k Hk] _ IH]; [done|].
    rewrite filter_cons_False by (by rewrite Hk). done.
Qed.

Lemma reaggregation_suppressed_witness :
  ∃ v', get_entry_size Fixture.nested_root ({[KInt 2]} ∪ ({[KInt 1]} ∪ ∅))
          = Ok (v', {[KInt 2]} ∪ ({[KInt 1]} ∪ ∅))
        ∧ num_of v'
          = Some (dsize_sum (filter (λ d, file_key d = None)
                               (files Fixture.nested_root)))
        ∧ (Forall (λ d, is_Some (file_key d)) (files Fixture.nested_root) →
           num_of v' = Some 0).
Proof.
  apply (reaggregation_suppressed Fixture.nested_root ∅ _ (JInt 8192)).
  - repeat constructor; by eexists.
  - reflexivity.
Defined.

(** ** Properties of the entry digest *)

(** [extract_entry_info] never raises: the two subscripts are in range
    whenever they are evaluated.  It answers [None] exactly for an entry
    that is not a sequence of at least two elements. *)
Theorem extract_entry_info_none (entry : json) (max_depth current_depth : Z) :
  (∃ v, extract_entry_info entry max_depth current_depth = Ok v)
  ∧ (extract_entry_info entry max_depth current_depth = Ok JNull
     ↔ ∀ a b rest, entry ≠ JList (a :: b :: rest)).
Proof.
  unfold extract_entry_info.
  destruct entry as [|b|z|s|l|d]; try (split; [eauto | done]).
  destruct l as [|a [|b rest]]; try (split; [eauto | done]).
  rewrite bool_decide_false by (simpl; lia). simpl.
  destruct (bool_decide (current_depth < max_depth)
            && bool_decide (2 < S (S (length rest)))%nat);
    (split; [eauto|]); split; try done; intros H; by destruct (H a b rest).
Qed.

(** The digest of a sequence keeps its first two elements and none of
    the others: when the depth allows it and there are more elements,
    they are replaced by one marker that records how many they are. *)
Theorem extract_entry_info_digest (a b : json) (rest : list json)
    (max_depth current_depth : Z) :
  extract_entry_info (JList (a :: b :: rest)) max_depth current_depth
  = Ok (JList (if bool_decide (current_depth < max_depth ∧ rest ≠ [])
               then [a; b; children_marker (Z.of_nat (length rest))]
               else [a; b])).
Proof.
  unfold extract_entry_info.
  rewrite bool_decide_false by (simpl; lia). simpl.
  destruct (decide (current_depth < max_depth)) as [Hd|Hd].
  - rewrite (bool_decide_true (current_depth < max_depth)) by done.
    destruct rest as [|c rest].
    + rewrite (bool_decide_false (2 < _)%nat) by (simpl; lia).
      rewrite (bool_decide_false (current_depth < max_depth ∧ [] ≠ []))
        by (by intros [_ ?]).
      done.
    + rewrite (bool_decide_true (2 < _)%nat) by (simpl; lia).
      rewrite (bool_decide_true (current_depth < max_depth ∧ c :: rest ≠ []))
        by done.
      simpl.
      replace (Z.of_nat (S (S (S (length rest)))) - 2)
        with (Z.of_nat (S (length rest))) by lia.
      done.
  - rewrite (bool_decide_false (current_depth < max_depth)) by done.
    rewrite (bool_decide_false (current_depth < max_depth ∧ rest ≠ []))
      by (by intros [? _]).
    done.
Qed.

(** ** Properties of the file selection in [main] *)

Lemma substring_whole (s : string) : String.substring 0 (String.length s) s = s.
Proof. induction s as [|c s IH]; simpl; [done | by rewrite IH]. Qed.

Lemma substring_app_r (a b : string) :
  String.substring (String.length a) (String.length b) (a +:+ b) = b.
Proof. induction a as [|c a IH]; simpl; [apply substring_whole | done]. Qed.

Lemma string_length_app (a b : string) :
  String.length (a +:+ b) = (String.length a + String.length b)%nat.
Proof. induction a as [|c a IH]; simpl; [done | by rewrite IH]. Qed.

Lemma endswith_app (a suffix : string) : endswith (a +:+ suffix) suffix = true.
Proof.
  unfold endswith. rewrite string_length_app.
  rewrite bool_decide_true by lia.
  replace (String.length a + String.length suffix - String.length suffix)%nat
    with (String.length a) by lia.
  rewrite substring_app_r. simpl. apply String.eqb_refl.
Qed.

Lemma metadata_files_elem (json_files : list string) (f : string) :
  f ∈ metadata_files json_files
  ↔ f ∈ json_files ∧ endswith f "-metadata.json" = false.
Proof. unfold metadata_files. rewrite list_elem_of_filter. tauto. Qed.

(** The file written for a report is never taken for a report: every
    output name is rejected by the selection, whatever [stem] returns,
    so a selected report is never overwritten by an output. *)
Theorem outputs_never_selected (stem : string → string) :
  (∀ fs, metadata_files (output_file stem <$> fs) = [])
  ∧ (∀ json_files f g,
       f ∈ metadata_files json_files → output_file stem g ≠ f).
Proof.
  split.
  - intros fs. induction fs as [|f fs IH]; [done|].
    rewrite fmap_cons. unfold metadata_files in *.
    rewrite filter_cons_False; [done|].
    unfold output_file. by rewrite endswith_app.
  - intros json_files f g [_ Hf]%metadata_files_elem <-.
    unfold output_file in Hf. by rewrite endswith_app in Hf.
Qed.

Lemma outputs_never_selected_witness :
  output_file path_stem "ubuntu-22.04.json" ≠ "ubuntu-22.04.json".
Proof.
  apply (proj2 (outputs_never_selected path_stem)
           ["ubuntu-22.04.json"; "ubuntu-22.04-metadata.json"]).
  refine (bool_decide_unpack _ _). vm_compute. exact I.
Defined.

(** Running the batch again selects the same reports: if the directory
    afterwards lists the old names and the outputs written, the
    selection made from the new listing has the same members as the
    selection made from the old one. *)
Theorem selection_stable_under_outputs (stem : string → string)
    (json_files json_files' : list string) :
  (∀ f, f ∈ json_files' ↔
        f ∈ json_files ∨ f ∈ output_file stem <$> metadata_files json_files) →
  ∀ f, f ∈ metadata_files json_files' ↔ f ∈ metadata_files json_files.
Proof.
  intros Hls f. rewrite !metadata_files_elem, Hls. split.
  - intros [[Hf|Hf] Hend]; [done|].
    apply list_elem_of_fmap in Hf as (g & -> & _).
    unfold output_file in Hend. by rewrite endswith_app in Hend.
  - intros [Hf Hend]. split; [by left | done].
Qed.

Lemma selection_stable_under_outputs_witness :
  "a.json" ∈ metadata_files
               ["a-metadata.json"; "b.json"; "a.json"; "b-metadata.json"]
  ↔ "a.json" ∈ metadata_files ["a.json"; "b.json"; "b-metadata.json"].
Proof.
  apply (selection_stable_under_outputs path_stem).
  intros f.
  set (outputs := output_file path_stem
                    <$> metadata_files ["a.json"; "b.json"; "b-metadata.json"]).
  vm_compute in outputs. subst outputs.
  rewrite !elem_of_cons, !elem_of_nil. tauto.
Defined.

(** ** Further properties of the extractor *)

Lemma summarize_root_scalars (root_entry : json) (md s : summary) :
  summarize_root root_entry md = Ok s → same_scalars s md.
Proof.
  unfold summarize_root, get_entry_size_fresh, same_scalars. unfold_bind.
  destruct root_entry as [|b|z|str|[|m cs]|d]; try (by intros [= <-]).
  destruct m as [|b|z|str|l|d];
    try (destruct (top_level_loop cs [] ∅) as [[es S']|e]; [|done];
         by intros [= <-]).
  destruct (get_entry_size (JList (JDict d :: cs)) ∅) as [[v S1]|e]; [|done].
  destruct (top_level_loop cs [] ∅) as [[es S']|e]; [|done].
  by intros [= <-].
Qed.



(** The five scalar fields of a summary are the values found under the
    same keys of the document, [None] for a missing key, whatever the
    document holds under [data]. *)
Theorem summary_scalars_pass_through (doc : gmap string json) (s : summary) :
  generate_metadata (JDict doc) = Ok s →
  architecture s = default JNull (doc !! "architecture")
  ∧ timestamp s = default JNull (doc !! "timestamp")
  ∧ runner s = default JNull (doc !! "runner")
  ∧ total_disk_size s = default JNull (doc !! "total_disk_size")
  ∧ available_space s = default JNull (doc !! "available_space").
Proof.
  unfold generate_metadata. unfold_bind.
  assert (Hroot : ∀ r, summarize_root r (base_metadata doc) = Ok s →
    same_scalars s (base_metadata doc)) by (intros; by eapply summarize_root_scalars).
  destruct (py_len _) as [n|e]; [|done].
  destruct (bool_decide (3 < n)%nat); [|by intros [= <-]].
  destruct (py_getitem _ 3) as [r|e]; [|done].
  intros H. apply (Hroot r H).
Qed.

Lemma summary_scalars_pass_through_witness :
  ∃ s, generate_metadata (JDict (Fixture.document Fixture.nested_root)) = Ok s
       ∧ architecture s = JStr "x64" ∧ timestamp s = JStr "2024-01-01"
       ∧ runner s = JNull ∧ total_disk_size s = JNull
       ∧ available_space s = JNull.
Proof.
  eexists. split; [reflexivity|].
  apply (summary_scalars_pass_through (Fixture.document Fixture.nested_root)).
  reflexivity.
Defined.




Lemma get_entry_size_typed_ok (t : json) (S : gset key) :
  Forall ino_hashable (files t) → Forall dsize_numeric (files t) →
  ∃ v S', get_entry_size t S = Ok (v, S').
Proof.
  intros Hh Hnum. pose proof (get_entry_size_agrees t S Hnum) as Ha.
  destruct (get_entry_size t S) as [[v S']|e]; [eauto|].
  destruct (count_files (files t) S) as [[z s]|e'] eqn:E; [done|].
  by apply count_files_hashable in E.
Qed.

Lemma top_level_loop_typed_ok (cs : list json) (acc : list top_entry)
    (S : gset key) :
  Forall (λ c, Forall ino_hashable (files c) ∧ Forall dsize_numeric (files c)) cs →
  ∃ es S', top_level_loop cs acc S = Ok (es, S').
Proof.
  intros Hty. revert acc S.
  induction Hty as [|c cs [Hh Hnum] _ IH]; intros acc S; [simpl; eauto|].
  cbn [top_level_loop]. unfold_bind.
  destruct (get_entry_size_typed_ok c S Hh Hnum) as (v & S1 & Hv).
  destruct c as [| | | |[|[] l]|]; try apply IH; rewrite Hv; apply IH.
Qed.

(** A document whose data array is a sequence (or is missing) and whose
    root tree, if any, has hashable inode fields and numeric disk-usage
    fields in all its File nodes always gets a summary: the extractor
    does not fail on it. *)
Theorem summary_produced_for_typed_documents (doc : gmap string json)
    (arr : list json) :
  dict_get_default doc "data" (JList []) = JList arr →
  (∀ root_entry, arr !! 3%nat = Some root_entry →
     Forall ino_hashable (files root_entry)
     ∧ Forall dsize_numeric (files root_entry)) →
  ∃ s, generate_metadata (JDict doc) = Ok s.
Proof.
  intros Hd Hty. unfold generate_metadata. rewrite Hd. simpl. unfold_bind.
  destruct (bool_decide_reflect (3 < length arr)%nat) as [Hlen|]; [|eauto].
  destruct (lookup_lt_is_Some_2 arr 3 Hlen) as [r Hr]. rewrite Hr.
  destruct (Hty r Hr) as [Hh Hnum].
  unfold summarize_root, get_entry_size_fresh. unfold_bind.
  destruct r as [|b|z|str|[|m cs]|d]; eauto.
  assert (Hcs : Forall (λ c, Forall ino_hashable (files c)
                             ∧ Forall dsize_numeric (files c)) cs).
  { rewrite files_list in Hh, Hnum.
    rewrite Forall_bind in Hh. rewrite Forall_bind in Hnum.
    apply Forall_and. split; done. }
  destruct (top_level_loop_typed_ok cs [] ∅ Hcs) as (es & S' & Hloop).
  destruct (get_entry_size_typed_ok (JList (m :: cs)) ∅ Hh Hnum)
    as (v & S1 & Hv).
  destruct m as [|b|z|str|l|d]; rewrite ?Hv, Hloop; eauto.
Qed.

Lemma summary_produced_for_typed_documents_witness :
  ∃ s, generate_metadata (JDict (Fixture.document Fixture.shared_root)) = Ok s.
Proof.
  apply (summary_produced_for_typed_documents
           (Fixture.document Fixture.shared_root)
           [JInt 1; JInt 2; JDict ∅; Fixture.shared_root]).
  - reflexivity.
  - intros root_entry [= <-].
    split; repeat constructor; by eexists.
Defined.

Lemma entry_shape_listed (c : json) : is_Some (entry_shape c) ↔ listed c = true.
Proof.
  destruct c as [| | | |[|[] l]|]; simpl;
    split; try done; try (by intros [? [=]]); eauto.
Qed.

Lemma omap_entry_shape_length (cs : list json) :
  (length (omap entry_shape cs) ≤ length cs)%nat
  ∧ (length (omap entry_shape cs) = length cs
     ↔ Forall (λ c, listed c = true) cs).
Proof.
  induction cs as [|c cs [IHle IHeq]]; [by split|].
  change (omap entry_shape (c :: cs))
    with (match entry_shape c with
          | Some x => x :: omap entry_shape cs
          | None => omap entry_shape cs
          end).
  pose proof (entry_shape_listed c) as Hc.
  destruct (entry_shape c) as [x|]; simpl.
  - split; [lia|]. rewrite Forall_cons. split.
    + intros Hlen. split; [apply Hc; eauto | apply IHeq; lia].
    + intros [_ Hall]. f_equal. by apply IHeq.
  - split; [lia|]. rewrite Forall_cons. split; [lia|].
    intros [Hl _]. apply Hc in Hl as [? [=]].
Qed.

(** [top_entries] never has more elements than [total_entries] says,
    and has as many exactly when every child of the root is a mapping or
    a sequence whose first element is a mapping. *)
Theorem top_entries_at_most_total_entries (doc : gmap string json) (m : json)
    (cs : list json) (s : summary) (es : list top_entry) (n : Z) :
  located doc (JList (m :: cs)) →
  generate_metadata (JDict doc) = Ok s →
  top_entries s = Some es → total_entries s = Some n →
  Z.of_nat (length es) ≤ n
  ∧ (Z.of_nat (length es) = n ↔ Forall (λ c, listed c = true) cs).
Proof.
  intros Hloc Hgen Hes Hn. rewrite (generate_located _ _ Hloc) in Hgen.
  apply summarize_root_inv in Hgen as (es0 & S' & Hloop & Hes0 & Hn0 & _).
  rewrite Hes0 in Hes. injection Hes as ->.
  rewrite Hn0 in Hn. injection Hn as <-.
  apply top_level_loop_shape in Hloop.
  assert (Hlen : length es = length (omap entry_shape cs)).
  { rewrite <- (length_fmap shape_of es), Hloop. done. }
  destruct (omap_entry_shape_length cs) as [Hle Heq].
  split; [lia|]. rewrite <- Heq. lia.
Qed.

Lemma top_entries_at_most_total_entries_witness :
  ∃ es : list top_entry,
    Z.of_nat (length es) ≤ 3
    ∧ (Z.of_nat (length es) = 3 ↔
           Forall (λ c, listed c = true)
             [Fixture.file "f" 4096 1; JStr "junk"; JList []]).
Proof.
  eexists.
  eapply (top_entries_at_most_total_entries
            (Fixture.document Fixture.ragged_root) (Fixture.dir_meta "root")
            [Fixture.file "f" 4096 1; JStr "junk"; JList []]).
  - eexists. split; reflexivity.
  - reflexivity.
  - reflexivity.
  - reflexivity.
Defined.

Lemma get_entry_size_nonneg (t : json) (S S' : gset key) (v : json) :
  Forall dsize_nonneg (files t) →
  get_entry_size t S = Ok (v, S') →
  ∃ z, num_of v = Some z ∧ 0 ≤ z.
Proof.
  intros Hnn Hv.
  assert (Hnum : Forall dsize_numeric (files t))
    by (eapply Forall_impl; [done | apply dsize_nonneg_numeric]).
  destruct (get_entry_size_counted t S S' v Hnum Hv) as [_ Hz].
  eexists. split; [done|].
  by apply (dsize_sum_sublist _ (files t)); [apply counted_sublist|].
Qed.

Lemma aggregate_each_nonneg (l : list json) (S S' : gset key) (vs : list json) :
  Forall (λ c, Forall dsize_nonneg (files c)) l →
  aggregate_each l S = Ok (vs, S') →
  Forall (λ v, ∃ z, num_of v = Some z ∧ 0 ≤ z) vs.
Proof.
  intros Hl. revert S vs. induction Hl as [|c l Hc _ IH]; intros S vs.
  - simpl. by intros [= <- _].
  - cbn [aggregate_each]. unfold_bind.
    destruct (get_entry_size c S) as [[v S1]|e] eqn:E1; [|done].
    destruct (aggregate_each l S1) as [[vs' S2]|e] eqn:E2; [|done].
    intros [= <- <-]. constructor; [by eapply get_entry_size_nonneg|].
    by eapply IH.
Qed.

Lemma entries_sum_bound (es : list top_entry) (z : Z) :
  entries_sum es = Some z →
  Forall (λ v, ∃ ze, num_of v = Some ze ∧ 0 ≤ ze) (te_size <$> es) →
  0 ≤ z ∧ Forall (λ e, ∃ ze, num_of (te_size e) = Some ze ∧ 0 ≤ ze ≤ z) es.
Proof.
  revert z. induction es as [|e es IH]; intros z; simpl.
  - intros [= <-] _. split; [lia | constructor].
  - destruct (num_of (te_size e)) as [ze|] eqn:Ee; [|done]. simpl.
    destruct (entries_sum es) as [r|] eqn:Er; [|done]. simpl.
    intros [= <-] [(ze' & Hze & Hpos) Hall]%Forall_cons.
    rewrite Ee in Hze. injection Hze as <-.
    destruct (IH r eq_refl Hall) as [Hr Hes]. split; [lia|].
    constructor.
    + exists ze. split; [done | lia].
    + eapply Forall_impl; [exact Hes|].
      intros e' (z' & Hz' & Hb). exists z'. split; [done | lia].
Qed.

(** No entry exceeds the total.  When the disk-usage fields under the
    root are not negative and no top-level child is a sequence headed by
    a non-mapping, [total_size] is an integer and the size of every
    element of [top_entries] is a number between 0 and [total_size]. *)
Theorem entry_sizes_within_total (doc : gmap string json) (m : json)
    (cs : list json) (s : summary) (t : json) (es : list top_entry) :
  located doc (JList (m :: cs)) →
  Forall (λ c, headless c = false) cs →
  Forall dsize_nonneg (files (JList (m :: cs))) →
  generate_metadata (JDict doc) = Ok s →
  total_size s = Some t → top_entries s = Some es →
  ∃ z, t = JInt z
       ∧ Forall (λ e, ∃ ze, num_of (te_size e) = Some ze ∧ 0 ≤ ze ≤ z) es.
Proof.
  intros Hloc Hh Hnn Hgen Ht Hes.
  destruct (summary_sum_total doc m cs s t es Hloc Hgen Hh Ht Hes)
    as (z & -> & Hsum).
  exists z. split; [done|].
  rewrite (generate_located _ _ Hloc) in Hgen.
  apply summarize_root_inv in Hgen as (es0 & S' & Hloop & Hes0 & _).
  rewrite Hes0 in Hes. injection Hes as ->.
  apply top_level_loop_each in Hloop as (es' & -> & Heach).
  rewrite app_nil_l in Hsum |- *.
  apply (entries_sum_bound es' z Hsum).
  eapply aggregate_each_nonneg; [|exact Heach].
  rewrite files_list, Forall_bind in Hnn.
  rewrite Forall_forall in Hnn |- *.
  intros c [_ Hc]%list_elem_of_filter. by apply Hnn.
Qed.

Lemma entry_sizes_within_total_witness :
  ∃ (z : Z) (es : list top_entry),
    JInt 4096 = JInt z
    ∧ te_size <$> es = [JInt 4096; JInt 0]
    ∧ Forall (λ e, ∃ ze, num_of (te_size e) = Some ze ∧ 0 ≤ ze ≤ z) es.
Proof.
  assert (H : ∃ s es,
    generate_metadata (JDict (Fixture.document Fixture.shared_root)) = Ok s
    ∧ total_size s = Some (JInt 4096) ∧ top_entries s = Some es
    ∧ te_size <$> es = [JInt 4096; JInt 0]).
  { eexists. eexists. split_and!; reflexivity. }
  destruct H as (s & es & Hgen & Ht & Hes & Hsizes).
  destruct (entry_sizes_within_total
              (Fixture.document Fixture.shared_root) (Fixture.dir_meta "root")
              [JList [Fixture.dir_meta "a"; Fixture.file "f" 4096 7];
               JList [Fixture.dir_meta "b"; Fixture.file "g" 4096 7]]
              s (JInt 4096) es) as (z & Hz & Hall).
  - eexists. split; reflexivity.
  - repeat constructor.
  - repeat constructor; (eexists; split; [reflexivity | lia]).
  - exact Hgen.
  - exact Ht.
  - exact Hes.
  - exists z, es. split_and!; done.
Defined.

(** ** Order of the children *)

Lemma directory_total_int_value (l : list json) (S S' : gset key) (v : json) :
  get_entry_size (JList l) S = Ok (v, S') → ∃ z, v = JInt z.
Proof.
  destruct l as [|m cs]; [intros [= <- _]; eauto|].
  rewrite get_entry_size_list. apply sum_children_int.
Qed.

Lemma links_consistent_cons (d : gmap string json) (fs : list (gmap string json)) :
  links_consistent (d :: fs) → links_consistent fs.
Proof.
  intros H d1 d2 k H1 H2. apply H; by apply list_elem_of_further.
Qed.

Lemma links_consistent_perm (fs fs' : list (gmap string json)) :
  fs ≡ₚ fs' → links_consistent fs → links_consistent fs'.
Proof.
  intros Hp H d1 d2 k H1 H2. apply H; by rewrite Hp.
Qed.

Lemma counted_perm_sum (fs fs' : list (gmap string json)) :
  fs ≡ₚ fs' → links_consistent fs →
  ∀ S, dsize_sum (counted fs S) = dsize_sum (counted fs' S).
Proof.
  induction 1 as [|x l l' Hp IH|x y l|l l' l'' Hp1 IH1 Hp2 IH2];
    intros Hc S.
  - done.
  - apply links_consistent_cons in Hc as Hc'. cbn [counted].
    destruct (file_key x) as [k|]; [destruct (decide (k ∈ S))|];
      simpl; rewrite ?IH; done.
  - assert (Hxy : ∀ k, file_key x = Some k → file_key y = Some k →
                       dsize_num x = dsize_num y).
    { intros k Hx Hy. apply (Hc x y k); [set_solver.. | done | done]. }
    cbn [counted].
    destruct (file_key x) as [kx|] eqn:Ex, (file_key y) as [ky|] eqn:Ey;
      repeat case_decide; simpl; try done; try set_solver.
    + assert (kx = ky) as -> by set_solver.
      rewrite (Hxy ky eq_refl eq_refl). done.
    + assert (E : ({[ky]} : gset key) ∪ ({[kx]} ∪ S) = {[kx]} ∪ ({[ky]} ∪ S))
        by set_solver.
      rewrite E. lia.
    + lia.
    + lia.
    + lia.
  - rewrite IH1 by done. apply IH2. by eapply links_consistent_perm.
Qed.

(** The total does not depend on the order of the children: when File
    nodes that share an inode identifier report the same disk usage,
    a directory whose children are listed in another order aggregates
    to the same total and leaves the same dedup set. *)
Theorem aggregate_order_independent (m : json) (cs cs' : list json)
    (S S' : gset key) (v : json) :
  cs ≡ₚ cs' →
  Forall dsize_numeric (files (JList (m :: cs))) →
  links_consistent (files (JList (m :: cs))) →
  get_entry_size (JList (m :: cs)) S = Ok (v, S') →
  get_entry_size (JList (m :: cs')) S = Ok (v, S').
Proof.
  intros Hp Hnum Hc Hv.
  assert (Hfiles : files (JList (m :: cs)) ≡ₚ files (JList (m :: cs')))
    by (rewrite !files_list; by rewrite Hp).
  assert (Hnum' : Forall dsize_numeric (files (JList (m :: cs'))))
    by (by rewrite <- Hfiles).
  destruct (get_entry_size_counted _ S S' v Hnum Hv) as [Hh Hz].
  assert (Hh' : Forall ino_hashable (files (JList (m :: cs'))))
    by (by rewrite <- Hfiles).
  destruct (get_entry_size_typed_ok (JList (m :: cs')) S Hh' Hnum')
    as (v' & S'' & Hv').
  destruct (get_entry_size_counted _ S S'' v' Hnum' Hv') as [_ Hz'].
  rewrite <- (counted_perm_sum _ _ Hfiles Hc) in Hz'.
  rewrite Hv'.
  destruct (directory_total_int_value _ _ _ _ Hv) as [z ->].
  destruct (directory_total_int_value _ _ _ _ Hv') as [z' ->].
  simpl in Hz, Hz'. simplify_eq.
  apply get_entry_size_seen in Hv as ->.
  apply get_entry_size_seen in Hv' as ->.
  do 2 f_equal. unfold inodes. rewrite Hfiles. done.
Qed.

Lemma aggregate_order_independent_witness :
  get_entry_size
    (JList [Fixture.dir_meta "d"; Fixture.file "b" 4096 7;
            JList [Fixture.dir_meta "a"; Fixture.file "f" 4096 7]]) ∅
  = Ok (JInt 4096, {[KInt 7]} ∪ ∅).
Proof.
  apply (aggregate_order_independent (Fixture.dir_meta "d")
           [JList [Fixture.dir_meta "a"; Fixture.file "f" 4096 7];
            Fixture.file "b" 4096 7]).
  - apply Permutation_swap.
  - repeat constructor; by eexists.
  - intros d1 d2 k H1 H2 _ _. vm_compute files in H1, H2.
    apply elem_of_cons in H1 as [->|H1]; [|apply elem_of_cons in H1 as [->|H1]];
      [| |by apply elem_of_nil in H1];
    (apply elem_of_cons in H2 as [->|H2]; [|apply elem_of_cons in H2 as [->|H2]];
      [| |by apply elem_of_nil in H2]); reflexivity.
  - reflexivity.
Defined.

(** ** Agreement of the two passes *)


